(** * E-commerce product dashboard: the store, the virtual list, the
      analytics cards, the notification queue and the simulated load, with
      the search box, the session, the generator and the edit modal

    A shallow embedding of [src/App.jsx].  JavaScript numbers that the
    program uses as integers (identifiers, pixel offsets, stock and sales
    counts, millisecond clock readings) are values of [Z], which is what
    they are below [2^53]; the rating, the only quantity the program handles
    as a fraction, is an IEEE 754 binary64 value ([float], the kernel's
    primitive floats).  What the program reads of its environment is
    explicit: the clock behind [Date.now()], the timeouts that [setTimeout]
    has pending, and the scroll geometry of the list container. *)

From Stdlib Require Import ZArith Lia Ascii String List.
From Stdlib Require Import PrimFloat FloatOps SpecFloat Uint63 DecimalString.
From Stdlib Require DecimalFacts DecimalPos DecimalN FloatAxioms.
From stdpp Require Import base tactics option list strings numbers.

Local Open Scope Z_scope.

(** ** Data model *)

Module Product.

(** [rating] is the number the field denotes, that is, what
    [parseFloat(p.rating)] reads from it: the generator stores the text that
    [toFixed(1)] printed, and [parseFloat] reads a text back to the nearest
    double and a number back to itself. *)
Record t : Type := mk {
  id : Z;
  name : string;
  category : string;
  price : Z;
  stock : Z;
  status : string;
  sales : Z;
  rating : float
}.

(** [{ ...p, id: i }] *)
Definition with_id (p : t) (i : Z) : t :=
  mk i (name p) (category p) (price p) (stock p) (status p) (sales p)
     (rating p).

End Product.

Module State.

Record t : Type := mk {
  products : list Product.t;
  loading : bool;
  filter : string;
  searchTerm : string;
  error : option string
}.

(** [{ ...state, products: ps }] and its siblings. *)
Definition with_products (ps : list Product.t) (s : t) : t :=
  mk ps (loading s) (filter s) (searchTerm s) (error s).
Definition with_loading (b : bool) (s : t) : t :=
  mk (products s) b (filter s) (searchTerm s) (error s).
Definition with_filter (f : string) (s : t) : t :=
  mk (products s) (loading s) f (searchTerm s) (error s).
Definition with_searchTerm (q : string) (s : t) : t :=
  mk (products s) (loading s) (filter s) q (error s).
Definition with_error (e : option string) (s : t) : t :=
  mk (products s) (loading s) (filter s) (searchTerm s) e.

(** The argument of [useReducer] in [ProductProvider]. *)
Definition initial : t := mk [] true "all" "" None.

End State.

(** The actions, one constructor per [case] of the reducer's [switch];
    [OTHER] carries a [type] that no [case] matches. *)
Inductive Action : Type :=
  | SET_PRODUCTS (payload : list Product.t)
  | SET_LOADING (payload : bool)
  | SET_FILTER (payload : string)
  | SET_SEARCH (payload : string)
  | ADD_PRODUCT (payload : Product.t)
  | UPDATE_PRODUCT (payload : Product.t)
  | DELETE_PRODUCT (payload : Z)
  | SET_ERROR (payload : string)
  | OTHER (type : string).

(** ** The product reducer

    [now] is the value [Date.now()] returns when the reducer runs. *)
Definition productReducer (now : Z) (state : State.t) (action : Action)
  : State.t :=
  match action with
  | SET_PRODUCTS payload =>
      State.with_loading false (State.with_products payload state)
  | SET_LOADING payload => State.with_loading payload state
  | SET_FILTER payload => State.with_filter payload state
  | SET_SEARCH payload => State.with_searchTerm payload state
  | ADD_PRODUCT payload =>
      State.with_products
        (State.products state ++ [Product.with_id payload now]) state
  | UPDATE_PRODUCT payload =>
      State.with_products
        ((λ p, if Product.id p =? Product.id payload then payload else p)
           <$> State.products state)
        state
  | DELETE_PRODUCT payload =>
      State.with_products
        (base.filter (λ p, Product.id p ≠ payload) (State.products state))
        state
  | SET_ERROR payload =>
      State.with_loading false (State.with_error (Some payload) state)
  | OTHER _ => state
  end.

(** The fields of the state other than the collection. *)
Definition same_view (s s' : State.t) : Prop :=
  State.loading s' = State.loading s ∧
  State.filter s' = State.filter s ∧
  State.searchTerm s' = State.searchTerm s ∧
  State.error s' = State.error s.

(** The identifiers of the collection. *)
Definition product_ids (s : State.t) : list Z :=
  Product.id <$> State.products s.

(** An add, run at clock reading [now], appends one entry whose identifier
    no entry of the prior collection has. *)
Definition add_appends_fresh (now : Z) (s : State.t) (p : Product.t) : Prop :=
  ∃ q, State.products (productReducer now s (ADD_PRODUCT p))
       = State.products s ++ [q]
       ∧ Product.id q ∉ product_ids s.

(** Two evaluations of the reducer, at clock readings [now1] and [now2],
    agree on a state and an action. *)
Definition evaluations_agree (now1 now2 : Z) (s : State.t) (a : Action)
  : Prop :=
  productReducer now1 s a = productReducer now2 s a.

Definition is_ADD_PRODUCT (a : Action) : bool :=
  match a with ADD_PRODUCT _ => true | _ => false end.

(** ** The virtual list *)

(** [itemHeight] of [handleScroll]; the two spacers repeat it as [100]. *)
Definition itemHeight : Z := 100.

(** [Math.floor(a / b)] and [Math.ceil(a / b)] on integers, [b] positive. *)
Definition floor_div (a b : Z) : Z := a / b.
Definition ceil_div (a b : Z) : Z := - ((- a) / b).

Module Range.

(** [{ start, end }]; [end] is a keyword here, hence [end_]. *)
Record t : Type := mk { start : Z; end_ : Z }.

(** The argument of [useState] in [VirtualProductList]. *)
Definition initial : t := mk 0 50.

End Range.

(** [Array.prototype.slice(start, end)]: a negative index counts from the
    end of the array, both indices are clamped to the array, and a start at
    or after the end gives the empty array. *)
Definition slice {A : Type} (l : list A) (start end_ : Z) : list A :=
  let len := Z.of_nat (length l) in
  let k := if start <? 0 then Z.max (len + start) 0 else Z.min start len in
  let final := if end_ <? 0 then Z.max (len + end_) 0 else Z.min end_ len in
  take (Z.to_nat (Z.max (final - k) 0)) (drop (Z.to_nat k) l).

(** [handleScroll], on the [scrollTop] and [clientHeight] it reads from the
    container (which is there whenever the list is on screen): the range it
    hands to [setVisibleRange]. *)
Definition handleScroll (products : list Product.t)
  (scrollTop clientHeight : Z) : Range.t :=
  let start := floor_div scrollTop itemHeight in
  let end_ :=
    Z.min (start + ceil_div clientHeight itemHeight + 5)
          (Z.of_nat (length products)) in
  Range.mk start end_.

Module View.

(** What [VirtualProductList] returns: the [height] of the spacer above,
    one [ProductItem] per product of the slice, the [height] of the spacer
    below. *)
Record t : Type := mk {
  top_spacer : Z;
  rows : list Product.t;
  bottom_spacer : Z
}.

End View.

Definition VirtualProductList (products : list Product.t)
  (visibleRange : Range.t) : View.t :=
  let visibleProducts :=
    slice products (Range.start visibleRange) (Range.end_ visibleRange) in
  View.mk (Range.start visibleRange * 100)
          visibleProducts
          ((Z.of_nat (length products) - Range.end_ visibleRange) * 100).

(** The two spacer heights plus the number of rendered rows times the row
    height. *)
Definition total_height (v : View.t) : Z :=
  View.top_spacer v + Z.of_nat (length (View.rows v)) * itemHeight
  + View.bottom_spacer v.

(** The list as it is drawn after a scroll event (or after the effect that
    follows a change of [products.length]). *)
Definition scrolled (products : list Product.t)
  (scrollTop clientHeight : Z) : View.t :=
  VirtualProductList products (handleScroll products scrollTop clientHeight).

(** ** The analytics cards *)

Module Analytics.

Record t : Type := mk {
  totalProducts : nat;
  totalSales : Z;
  averageRating : string;
  outOfStock : nat
}.

End Analytics.

(** The decimal digits of a natural number, ["0"] for zero. *)
Definition digits (n : Z) : string :=
  NilZero.string_of_uint (N.to_uint (Z.to_N n)).

Fixpoint zeros (k : nat) : string :=
  match k with
  | O => EmptyString
  | S k' => String "0"%char (zeros k')
  end.

(** The last steps of [Number.prototype.toFixed]: pad the digits of [n] to
    more than [f] of them and set the point before the last [f]. *)
Definition set_point (m : string) (f : nat) : string :=
  match f with
  | O => m
  | _ =>
      let k := String.length m in
      let m := if (k <=? f)%nat then zeros (f + 1 - k) +:+ m else m in
      let k := String.length m in
      substring 0 (k - f) m +:+ "." +:+ substring (k - f) f m
  end.

(** The integer [n] for which [n / 10^f - m * 2^e] is as close to zero as
    possible, the larger one when there are two. *)
Definition nearest_scaled (m : positive) (e : Z) (f : nat) : Z :=
  if 0 <=? e then Z.pos m * 2 ^ e * 10 ^ Z.of_nat f
  else (2 * Z.pos m * 10 ^ Z.of_nat f + 2 ^ (- e)) / 2 ^ (1 - e).

(** [n] is the integer that [toFixed] is to print for the magnitude
    [m * 2^e] and [f] digits: [m * 2^e * 10^f - 1/2 < n <= m * 2^e * 10^f +
    1/2], written without fractions (with [num / den] for [m * 2^e], both
    sides are multiplied by [2 * den]). *)
Definition rounds_to (n : Z) (m : positive) (e : Z) (f : nat) : Prop :=
  let num := Z.pos m * 2 ^ Z.max e 0 in
  let den := 2 ^ Z.max (- e) 0 in
  2 * num * 10 ^ Z.of_nat f - den < 2 * n * den
  ∧ 2 * n * den ≤ 2 * num * 10 ^ Z.of_nat f + den.

(** [m * 2^e >= 10^21] *)
Definition at_least_1e21 (m : positive) (e : Z) : bool :=
  if 0 <=? e then 10 ^ 21 <=? Z.pos m * 2 ^ e
  else 10 ^ 21 * 2 ^ (- e) <=? Z.pos m.

(** The array length as a number (a length is below [2^32]). *)
Definition number_of_nat (n : nat) : float :=
  PrimFloat.of_uint63 (Uint63.of_Z (Z.of_nat n)).

Section Analytics.

(** [Number::toString] on a finite number of magnitude [10^21] or more,
    where [toFixed] falls back on it; the program's means never get there. *)
Variable Number_toString : float → string.

(** [x.toFixed(fractionDigits)] for up to 100 digits, after ECMA-262: the
    text of a number that is not finite, else a sign for a negative number,
    then the scaled magnitude rounded to the nearest integer (the larger of
    two) with the point set.  [Prim2SF] gives the number as
    [(-1)^s * m * 2^e] exactly. *)
Definition toFixed (x : float) (fractionDigits : nat) : string :=
  match Prim2SF x with
  | S754_nan => "NaN"
  | S754_infinity s => if s then "-Infinity" else "Infinity"
  | S754_zero _ => set_point (digits 0) fractionDigits
  | S754_finite s m e =>
      (if s then "-" else "") +:+
      (if at_least_1e21 m e then Number_toString (abs x)
       else set_point (digits (nearest_scaled m e fractionDigits))
                      fractionDigits)
  end.

(** The sum of the ratings, as [reduce] adds them from [0], left to right. *)
Definition rating_sum (products : list Product.t) : float :=
  foldl (λ sum p, (sum + Product.rating p)%float) 0%float products.

(** The [useMemo] of [AnalyticsDashboard]: [None] is its [null]. *)
Definition analytics (products : list Product.t) : option Analytics.t :=
  if (length products =? 0)%nat then None
  else
    let totalProducts := length products in
    let totalSales := foldl (λ sum p, sum + Product.sales p) 0 products in
    let averageRating :=
      toFixed (rating_sum products / number_of_nat (length products))%float
              1 in
    let outOfStock :=
      length (base.filter (λ p, Product.stock p = 0) products) in
    Some (Analytics.mk totalProducts totalSales averageRating outOfStock).

End Analytics.

(** *** The mean of the ratings as numbers

    What the cards would show were the mean taken without rounding of the
    sum and of the quotient: the measure the double arithmetic of
    [analytics] is compared with. *)

(** The decimal [n / 10], [n] not negative, written with one digit after
    the point. *)
Definition one_decimal (n : Z) : string :=
  digits (n / 10) +:+ "." +:+ digits (n mod 10).

(** Every double that is a number is a multiple of [2^-1074]: [scaled x] is
    the integer [x * 2^1074]. *)
Definition scaled (x : float) : option Z :=
  match Prim2SF x with
  | S754_zero _ => Some 0
  | S754_finite s m e =>
      Some ((if s then -1 else 1) * Z.pos m * 2 ^ (e + 1074))
  | S754_infinity _ | S754_nan => None
  end.

(** The sum of the numbers, times [2^1074]. *)
Fixpoint scaled_sum (ratings : list float) : option Z :=
  match ratings with
  | [] => Some 0
  | x :: ratings' =>
      match scaled x, scaled_sum ratings' with
      | Some a, Some b => Some (a + b)
      | _, _ => None
      end
  end.

(** [n / 10] is a decimal with one digit after the point that is nearest to
    the mean of the ratings (either of the two when the mean lies halfway):
    [|10 * sum / length - n| <= 1/2], written without fractions. *)
Definition mean_rounds_to (products : list Product.t) (n : Z) : Prop :=
  match scaled_sum (Product.rating <$> products) with
  | Some sum =>
      let den := Z.of_nat (length products) * 2 ^ 1074 in
      2 * 10 * sum - den ≤ 2 * n * den ∧ 2 * n * den ≤ 2 * 10 * sum + den
  | None => False
  end.

(** The decimal [n / 10] with its sign. *)
Definition signed_decimal (n : Z) : string :=
  if n <? 0 then "-" +:+ one_decimal (- n) else one_decimal n.

(** The average rating of [a] is the mean of the ratings of [products]
    rounded to one decimal. *)
Definition average_is_rounded_mean (products : list Product.t)
  (a : Analytics.t) : Prop :=
  ∃ n, mean_rounds_to products n
       ∧ Analytics.averageRating a = signed_decimal n.

(** ** The notification queue

    The provider's state together with the part of the environment its two
    callbacks depend on: the clock that [Date.now()] reads, in milliseconds,
    and the timeouts that [setTimeout] has pending. *)

Module Notification.

Record t : Type := mk { type : string; message : string; id : Z }.

(** [{ ...notification, id }] *)
Definition with_id (n : t) (i : Z) : t := mk (type n) (message n) i.

End Notification.

Module Timer.

(** A pending timeout of [addNotification]: the clock reading from which it
    may fire, and the [id] its callback closes over. *)
Record t : Type := mk { due : Z; id : Z }.

End Timer.

Module Queue.

Record t : Type := mk {
  now : Z;
  notifications : list Notification.t;
  timers : list Timer.t
}.

(** [useState([])], at clock reading [t0], no timeout pending. *)
Definition initial (t0 : Z) : t := mk t0 [] [].

End Queue.

Definition addNotification (notification : Notification.t) (q : Queue.t)
  : Queue.t :=
  let id := Queue.now q in
  Queue.mk (Queue.now q)
           (Queue.notifications q ++ [Notification.with_id notification id])
           (Queue.timers q ++ [Timer.mk (Queue.now q + 5000) id]).

Definition removeNotification (id : Z) (q : Queue.t) : Queue.t :=
  Queue.mk (Queue.now q)
           (base.filter (λ n, Notification.id n ≠ id) (Queue.notifications q))
           (Queue.timers q).

(** The callback that [addNotification] hands to [setTimeout]. *)
Definition expire (id : Z) (q : Queue.t) : Queue.t :=
  Queue.mk (Queue.now q)
           (base.filter (λ n, Notification.id n ≠ id) (Queue.notifications q))
           (Queue.timers q).

(** The clock advances by [ms] and the event loop runs the callback of
    every timeout that is due by then, in the order they were set. *)
Definition elapse (ms : N) (q : Queue.t) : Queue.t :=
  let now := Queue.now q + Z.of_N ms in
  let fired := base.filter (λ t, Timer.due t ≤ now) (Queue.timers q) in
  let waiting := base.filter (λ t, ¬ Timer.due t ≤ now) (Queue.timers q) in
  foldl (λ q t, expire (Timer.id t) q)
        (Queue.mk now (Queue.notifications q) waiting) fired.

(** What can happen to the queue: a component enqueues a message, the user
    dismisses one, time passes. *)
Inductive QueueEvent : Type :=
  | Enqueue (notification : Notification.t)
  | Dismiss (id : Z)
  | Elapse (ms : N).

Definition queue_step (q : Queue.t) (e : QueueEvent) : Queue.t :=
  match e with
  | Enqueue notification => addNotification notification q
  | Dismiss id => removeNotification id q
  | Elapse ms => elapse ms q
  end.

Definition queue_run (es : list QueueEvent) (q : Queue.t) : Queue.t :=
  foldl queue_step q es.

(** The messages a run enqueues, as they enter the queue, in that order. *)
Fixpoint enqueued (es : list QueueEvent) (q : Queue.t)
  : list Notification.t :=
  match es with
  | [] => []
  | Enqueue notification :: es' =>
      Notification.with_id notification (Queue.now q)
      :: enqueued es' (queue_step q (Enqueue notification))
  | e :: es' => enqueued es' (queue_step q e)
  end.

(** The identifiers of the messages in the queue. *)
Definition queue_ids (q : Queue.t) : list Z :=
  Notification.id <$> Queue.notifications q.

(** Enqueueing puts one message at the end of the queue, under an
    identifier that no message in the queue has. *)
Definition enqueue_is_fresh (notification : Notification.t) (q : Queue.t)
  : Prop :=
  ∃ m, Queue.notifications (addNotification notification q)
       = Queue.notifications q ++ [m]
       ∧ Notification.id m ∉ queue_ids q.

(** What holds of the queue and its timeouts between events: every message
    in the queue carries the clock reading of its enqueueing as identifier
    and has its timeout pending; a pending timeout is due 5000 ms after the
    reading it closes over, and is not yet due. *)
Record queue_inv (q : Queue.t) : Prop := {
  inv_stamped :
    ∀ n, n ∈ Queue.notifications q → Notification.id n ≤ Queue.now q;
  inv_pending :
    ∀ n, n ∈ Queue.notifications q →
      Timer.mk (Notification.id n + 5000) (Notification.id n)
      ∈ Queue.timers q;
  inv_delay : ∀ t, t ∈ Queue.timers q → Timer.due t = Timer.id t + 5000;
  inv_not_due : ∀ t, t ∈ Queue.timers q → Queue.now q < Timer.due t
}.

(** ** The simulated load

    The effect of [ProductProvider]: the store, the clock, the [aborted]
    flag of the effect's [AbortController], the clock reading from which
    [fetchProducts] resumes after its [await] (when it is waiting), and the
    actions dispatched so far. *)

Module Loader.

Record t : Type := mk {
  store : State.t;
  now : Z;
  aborted : bool;
  resume_at : option Z;
  dispatched : list Action
}.

(** The provider before its effect has run, at clock reading [t0]. *)
Definition initial (s : State.t) (t0 : Z) : t := mk s t0 false None [].

End Loader.

Definition dispatch (action : Action) (l : Loader.t) : Loader.t :=
  Loader.mk (productReducer (Loader.now l) (Loader.store l) action)
            (Loader.now l) (Loader.aborted l) (Loader.resume_at l)
            (Loader.dispatched l ++ [action]).

(** The effect: a new [AbortController], then [fetchProducts] as far as its
    [await] of the one-second timeout. *)
Definition mount (l : Loader.t) : Loader.t :=
  let l := Loader.mk (Loader.store l) (Loader.now l) false
                     (Loader.resume_at l) (Loader.dispatched l) in
  let l := dispatch (SET_LOADING true) l in
  Loader.mk (Loader.store l) (Loader.now l) (Loader.aborted l)
            (Some (Loader.now l + 1000)) (Loader.dispatched l).

(** The cleanup the effect returns: [abortController.abort()]. *)
Definition cleanup (l : Loader.t) : Loader.t :=
  Loader.mk (Loader.store l) (Loader.now l) true (Loader.resume_at l)
            (Loader.dispatched l).

Section Load.

(** The collection [generateMockProducts] returns when it is called (it
    draws on [Math.random]). *)
Variable generateMockProducts : list Product.t.

(** [fetchProducts] from its [await] on. *)
Definition resume (l : Loader.t) : Loader.t :=
  if negb (Loader.aborted l)
  then dispatch (SET_PRODUCTS generateMockProducts) l
  else l.

(** The clock advances by [ms]; [fetchProducts] resumes if its timeout is
    due by then. *)
Definition load_elapse (ms : N) (l : Loader.t) : Loader.t :=
  let now := Loader.now l + Z.of_N ms in
  let l' := Loader.mk (Loader.store l) now (Loader.aborted l)
                      (Loader.resume_at l) (Loader.dispatched l) in
  match Loader.resume_at l with
  | Some due =>
      if due <=? now
      then resume (Loader.mk (Loader.store l) now (Loader.aborted l) None
                             (Loader.dispatched l))
      else l'
  | None => l'
  end.

Inductive LoadEvent : Type :=
  | Wait (ms : N)
  | Cleanup.

Definition load_step (l : Loader.t) (e : LoadEvent) : Loader.t :=
  match e with
  | Wait ms => load_elapse ms l
  | Cleanup => cleanup l
  end.

Definition load_run (es : list LoadEvent) (l : Loader.t) : Loader.t :=
  foldl load_step l es.

(** The time a run takes. *)
Fixpoint waited (es : list LoadEvent) : Z :=
  match es with
  | [] => 0
  | Wait ms :: es' => Z.of_N ms + waited es'
  | Cleanup :: es' => waited es'
  end.

End Load.

(** Whether an action is a set-collection. *)
Definition is_SET_PRODUCTS (a : Action) : bool :=
  match a with SET_PRODUCTS _ => true | _ => false end.

(** ** The list the dashboard shows *)

(** Text is modelled within ASCII: a string all of whose characters are
    below 128.  That is the text of the generated names and categories, and
    what is proved of the search below is proved of such text. *)
Definition ascii_text (s : string) : bool :=
  forallb (λ c, (nat_of_ascii c <? 128)%nat) (list_ascii_of_string s).

Definition ascii_products (products : list Product.t) : bool :=
  forallb (λ p, ascii_text (Product.name p)
                && ascii_text (Product.category p)) products.

(** [String.prototype.toLowerCase] on ASCII text: the letters [A] to [Z]
    (65 to 90) become [a] to [z] (97 to 122), every other character below
    128 is kept.  [lower] is the mapping of one character. *)
Definition lower (c : ascii) : ascii :=
  let n := nat_of_ascii c in
  if ((65 <=? n) && (n <=? 90))%nat then ascii_of_nat (n + 32) else c.

Fixpoint toLowerCase (s : string) : string :=
  match s with
  | EmptyString => EmptyString
  | String c s' => String (lower c) (toLowerCase s')
  end.

(** [s.includes(t)]: [t] occurs in [s]. *)
Fixpoint includes (s t : string) : bool :=
  String.prefix t s
  || match s with
     | EmptyString => false
     | String _ s' => includes s' t
     end.

(** Two characters are the same letter when they are equal or one is a
    capital [A] to [Z] and the other the small letter for it, 32 further
    on. *)
Definition same_letter (c c' : ascii) : Prop :=
  let n := nat_of_ascii c in
  let n' := nat_of_ascii c' in
  (n = n' ∨ (65 ≤ n ≤ 90 ∧ n' = n + 32) ∨ (65 ≤ n' ≤ 90 ∧ n = n' + 32))%nat.

(** Two texts that differ at most in the case of their letters. *)
Fixpoint same_letters (s t : string) : Prop :=
  match s, t with
  | EmptyString, EmptyString => True
  | String c s', String c' t' => same_letter c c' ∧ same_letters s' t'
  | _, _ => False
  end.

(** [t] occurs in [s] when the case of the letters is left aside. *)
Definition occurs_ignoring_case (t s : string) : Prop :=
  ∃ pre mid post, s = pre +:+ mid +:+ post ∧ same_letters mid t.

(** The predicate of the [filter] in [filteredProducts]. *)
Definition matches (filter searchTerm : string) (p : Product.t) : bool :=
  let matchesFilter :=
    String.eqb filter "all" || String.eqb (Product.category p) filter in
  let matchesSearch :=
    includes (toLowerCase (Product.name p)) (toLowerCase searchTerm)
    || includes (toLowerCase (Product.category p)) (toLowerCase searchTerm) in
  matchesFilter && matchesSearch.

(** The [useMemo] of [ProductDashboard]. *)
Definition filteredProducts (products : list Product.t)
  (filter searchTerm : string) : list Product.t :=
  base.filter (λ p, matches filter searchTerm p = true) products.

(** The list of a store state. *)
Definition shown (s : State.t) : list Product.t :=
  filteredProducts (State.products s) (State.filter s) (State.searchTerm s).

(** ** The debounced search box *)

Module Debounce.

(** The state of [useDebounce]: the [value] of the last render, the
    [debounced] value, and the pending timeout (when it is due, and the
    value its callback closes over). *)
Record t : Type := mk {
  value : string;
  debounced : string;
  timer : option (Z * string)
}.

End Debounce.

(** The first render of [useDebounce(value, delay)] at clock reading [now],
    and its effect. *)
Definition useDebounce_mount (now delay : Z) (value : string) : Debounce.t :=
  Debounce.mk value value (Some (now + delay, value)).

(** A later render with [value]: when the value differs from the one of the
    last render, the effect's cleanup clears the timeout and the effect sets
    a new one. *)
Definition useDebounce_render (now delay : Z) (value : string)
  (d : Debounce.t) : Debounce.t :=
  if String.eqb value (Debounce.value d) then d
  else Debounce.mk value (Debounce.debounced d) (Some (now + delay, value)).

(** The clock has come to [now]: the timeout, if due, runs
    [setDebounced(value)]. *)
Definition useDebounce_fire (now : Z) (d : Debounce.t) : Debounce.t :=
  match Debounce.timer d with
  | Some (due, v) =>
      if due <=? now then Debounce.mk (Debounce.value d) v None else d
  | None => d
  end.

Module SearchBox.

(** [SearchAndFilter] with the store it dispatches to: [localSearch] is the
    [value] of the debounce state. *)
Record t : Type := mk {
  store : State.t;
  now : Z;
  debounce : Debounce.t;
  dispatched : list Action
}.

End SearchBox.

Definition search_dispatch (action : Action) (b : SearchBox.t) : SearchBox.t :=
  SearchBox.mk (productReducer (SearchBox.now b) (SearchBox.store b) action)
               (SearchBox.now b) (SearchBox.debounce b)
               (SearchBox.dispatched b ++ [action]).

(** The first render over the store [s] at clock reading [t0]:
    [useState(searchTerm)], [useDebounce(localSearch, 300)], and the effect
    that dispatches the debounced value. *)
Definition mountSearch (s : State.t) (t0 : Z) : SearchBox.t :=
  let d := useDebounce_mount t0 300 (State.searchTerm s) in
  search_dispatch (SET_SEARCH (Debounce.debounced d))
                  (SearchBox.mk s t0 d []).

(** [onChange] of the input: [setLocalSearch(e.target.value)]. *)
Definition typeSearch (text : string) (b : SearchBox.t) : SearchBox.t :=
  SearchBox.mk (SearchBox.store b) (SearchBox.now b)
               (useDebounce_render (SearchBox.now b) 300 text
                                   (SearchBox.debounce b))
               (SearchBox.dispatched b).

(** [onChange] of the select. *)
Definition selectFilter (category : string) (b : SearchBox.t) : SearchBox.t :=
  search_dispatch (SET_FILTER category) b.

(** The clock advances by [ms]; when the timeout fires and the debounced
    value changes, the effect on it dispatches the new value. *)
Definition search_elapse (ms : N) (b : SearchBox.t) : SearchBox.t :=
  let now := SearchBox.now b + Z.of_N ms in
  let d := useDebounce_fire now (SearchBox.debounce b) in
  let b' := SearchBox.mk (SearchBox.store b) now d (SearchBox.dispatched b) in
  if String.eqb (Debounce.debounced d)
                (Debounce.debounced (SearchBox.debounce b))
  then b'
  else search_dispatch (SET_SEARCH (Debounce.debounced d)) b'.

Inductive SearchEvent : Type :=
  | Type_ (text : string)
  | Select (category : string)
  | Pause (ms : N).

Definition search_step (b : SearchBox.t) (e : SearchEvent) : SearchBox.t :=
  match e with
  | Type_ text => typeSearch text b
  | Select category => selectFilter category b
  | Pause ms => search_elapse ms b
  end.

Definition search_run (es : list SearchEvent) (b : SearchBox.t)
  : SearchBox.t :=
  foldl search_step b es.

(** Keystrokes with the pause after each. *)
Fixpoint burst (keys : list (string * N)) : list SearchEvent :=
  match keys with
  | [] => []
  | (text, ms) :: keys' => Type_ text :: Pause ms :: burst keys'
  end.

(** Each keystroke changes the text of the input, starting from [text]. *)
Fixpoint each_changes (text : string) (keys : list (string * N)) : Prop :=
  match keys with
  | [] => True
  | (text', _) :: keys' => text' ≠ text ∧ each_changes text' keys'
  end.


(** ** The session *)

Module User.

Record t : Type := mk {
  id : Z;
  name : string;
  role : string;
  email : string
}.

End User.

Module Auth.

Record t : Type := mk { user : option User.t; isAuthenticated : bool }.

(** The two [useState] of [AuthProvider]. *)
Definition initial : t :=
  mk (Some (User.mk 1 "John Admin" "admin" "admin@example.com")) true.

End Auth.

Definition login (a : Auth.t) : Auth.t := Auth.mk (Auth.user a) true.

Definition logout (a : Auth.t) : Auth.t := Auth.mk None false.

Inductive AuthEvent : Type := Login | Logout.

Definition auth_step (a : Auth.t) (e : AuthEvent) : Auth.t :=
  match e with
  | Login => login a
  | Logout => logout a
  end.

(** [user?.name] in [Header]. *)
Definition header_name (a : Auth.t) : option string :=
  User.name <$> Auth.user a.

(** ** The generated products *)

Module Draw.

(** What the six expressions over [Math.random()] give for one product. *)
Record t : Type := mk {
  category : string;
  price : Z;
  stock : Z;
  status : string;
  sales : Z;
  rating : float
}.

End Draw.

Section Generator.

(** The draws for the product of index [i], in the order [Array.from]
    makes them. *)
Variable draw : nat → Draw.t.

(** [generateMockProducts]: the text of the template literal is the decimal
    of [i + 1]. *)
Definition generateMockProducts : list Product.t :=
  (λ i : nat,
     Product.mk (Z.of_nat i + 1)
                ("Product " +:+ digits (Z.of_nat i + 1))
                (Draw.category (draw i))
                (Draw.price (draw i))
                (Draw.stock (draw i))
                (Draw.status (draw i))
                (Draw.sales (draw i))
                (Draw.rating (draw i)))
  <$> seq 0 1000.

End Generator.

(** ** The dashboard and its edit modal *)

Module Dashboard.

(** [ProductDashboard] with the two providers it uses: the store, the
    notification queue (whose clock is the clock), the product being edited,
    and the [formData] of the modal while it is mounted. *)
Record t : Type := mk {
  store : State.t;
  queue : Queue.t;
  editingProduct : option Product.t;
  formData : option Product.t
}.

End Dashboard.

Definition dashboard_dispatch (action : Action) (d : Dashboard.t)
  : Dashboard.t :=
  Dashboard.mk
    (productReducer (Queue.now (Dashboard.queue d)) (Dashboard.store d) action)
    (Dashboard.queue d) (Dashboard.editingProduct d) (Dashboard.formData d).

Definition dashboard_notify (notification : Notification.t) (d : Dashboard.t)
  : Dashboard.t :=
  Dashboard.mk (Dashboard.store d)
               (addNotification notification (Dashboard.queue d))
               (Dashboard.editingProduct d) (Dashboard.formData d).

(** [setEditingProduct]: the modal is mounted while a product is being
    edited; its [useState(product)] takes the product when it mounts and
    keeps its state while it stays mounted. *)
Definition setEditingProduct (product : option Product.t) (d : Dashboard.t)
  : Dashboard.t :=
  Dashboard.mk (Dashboard.store d) (Dashboard.queue d) product
    match product with
    | None => None
    | Some p =>
        match Dashboard.editingProduct d with
        | None => Some p
        | Some _ => Dashboard.formData d
        end
    end.

Definition handleEdit (product : Product.t) (d : Dashboard.t) : Dashboard.t :=
  setEditingProduct (Some product) d.

Definition handleDelete (id : Z) (d : Dashboard.t) : Dashboard.t :=
  dashboard_notify
    (Notification.mk "success" "Product deleted successfully" 0)
    (dashboard_dispatch (DELETE_PRODUCT id) d).

Definition handleSave (updated : Product.t) (d : Dashboard.t) : Dashboard.t :=
  dashboard_notify
    (Notification.mk "success" "Product updated successfully" 0)
    (setEditingProduct None (dashboard_dispatch (UPDATE_PRODUCT updated) d)).

(** The inputs of the modal.  [value] of a number input is what
    [parseInt(e.target.value, 10)] reads, for a text it reads a number
    from. *)
Inductive FormEdit : Type :=
  | Name (value : string)
  | Price (value : Z)
  | Stock (value : Z).

(** [setFormData({ ...formData, field: value })] *)
Definition setFormData (e : FormEdit) (f : Product.t) : Product.t :=
  match e with
  | Name v =>
      Product.mk (Product.id f) v (Product.category f) (Product.price f)
                 (Product.stock f) (Product.status f) (Product.sales f)
                 (Product.rating f)
  | Price v =>
      Product.mk (Product.id f) (Product.name f) (Product.category f) v
                 (Product.stock f) (Product.status f) (Product.sales f)
                 (Product.rating f)
  | Stock v =>
      Product.mk (Product.id f) (Product.name f) (Product.category f)
                 (Product.price f) v (Product.status f) (Product.sales f)
                 (Product.rating f)
  end.

Inductive DashboardEvent : Type :=
  | Edit (product : Product.t)
  | Change (e : FormEdit)
  | Submit
  | Close
  | Delete (id : Z)
  | Tick (ms : N).

Definition dashboard_step (d : Dashboard.t) (e : DashboardEvent)
  : Dashboard.t :=
  match e with
  | Edit product => handleEdit product d
  | Change c =>
      Dashboard.mk (Dashboard.store d) (Dashboard.queue d)
                   (Dashboard.editingProduct d)
                   (setFormData c <$> Dashboard.formData d)
  | Submit =>
      match Dashboard.formData d with
      | Some formData => handleSave formData d
      | None => d
      end
  | Close => setEditingProduct None d
  | Delete id => handleDelete id d
  | Tick ms =>
      Dashboard.mk (Dashboard.store d) (elapse ms (Dashboard.queue d))
                   (Dashboard.editingProduct d) (Dashboard.formData d)
  end.

Definition dashboard_run (es : list DashboardEvent) (d : Dashboard.t)
  : Dashboard.t :=
  foldl dashboard_step d es.

(** ** Sample data *)

(** Products to run the program on. *)
Definition widget : Product.t :=
  Product.mk 0 "Widget" "Home" 25 3 "active" 7 4.5%float.

Definition lamp : Product.t :=
  Product.mk 2 "Desk Lamp" "Home" 40 0 "active" 3 3.5%float.

Definition novel : Product.t :=
  Product.mk 3 "Novel" "Books" 12 8 "active" 9 4%float.

(** * Theorems *)

(** ** The store *)

Section Reducer.

Implicit Types (s : State.t) (p q : Product.t) (now i : Z).

Lemma with_id_id p i : Product.id (Product.with_id p i) = i.
Proof. reflexivity. Qed.

Lemma reducer_add_products now s p :
  State.products (productReducer now s (ADD_PRODUCT p))
  = State.products s ++ [Product.with_id p now].
Proof. reflexivity. Qed.

(** C10: set-collection replaces the collection with the payload and ends
    the loading state in the same transition; the error, the filter and the
    search term are left as they were. *)
Theorem set_products_ends_loading now s (ps : list Product.t) :
  let s' := productReducer now s (SET_PRODUCTS ps) in
  State.products s' = ps ∧
  State.loading s' = false ∧
  State.error s' = State.error s ∧
  State.filter s' = State.filter s ∧
  State.searchTerm s' = State.searchTerm s.
Proof. cbn. by repeat split. Qed.

(** The collection after an update, entry by entry. *)
Lemma update_lookup now s p (k : nat) :
  State.products (productReducer now s (UPDATE_PRODUCT p)) !! k
  = (λ q, if Product.id q =? Product.id p then p else q)
      <$> State.products s !! k.
Proof. cbn. by rewrite list_lookup_fmap. Qed.

Lemma fmap_replace_absent p (l : list Product.t) :
  Product.id p ∉ (Product.id <$> l) →
  (λ q, if Product.id q =? Product.id p then p else q) <$> l = l.
Proof.
  induction l as [|q l IH]; [done|].
  rewrite fmap_cons, not_elem_of_cons. intros [Hne Hl]. cbn.
  destruct (Z.eqb_spec (Product.id q) (Product.id p)) as [Heq|_].
  - by destruct Hne.
  - f_equal. by apply IH.
Qed.

(** C5: an update keeps the length of the collection, puts the payload in
    the place of every entry that has the payload's identifier, keeps every
    other entry where it is, and changes nothing when no entry has that
    identifier; the other fields of the state stay as they were. *)
Theorem update_replaces_matching now s p :
  let s' := productReducer now s (UPDATE_PRODUCT p) in
  length (State.products s') = length (State.products s) ∧
  (∀ (k : nat) q, State.products s !! k = Some q →
     Product.id q = Product.id p → State.products s' !! k = Some p) ∧
  (∀ (k : nat) q, State.products s !! k = Some q →
     Product.id q ≠ Product.id p → State.products s' !! k = Some q) ∧
  (Product.id p ∉ product_ids s → State.products s' = State.products s) ∧
  same_view s s'.
Proof.
  intros s'. subst s'. split; [|split; [|split; [|split]]].
  - cbn. by rewrite length_fmap.
  - intros k q Hk Hid. rewrite update_lookup, Hk. cbn.
    by rewrite (proj2 (Z.eqb_eq _ _) Hid).
  - intros k q Hk Hid. rewrite update_lookup, Hk. cbn.
    by rewrite (proj2 (Z.eqb_neq _ _) Hid).
  - intros Habs. cbn. by apply fmap_replace_absent.
  - by repeat split.
Qed.

Lemma filter_other_ids_absent i (l : list Product.t) :
  i ∉ (Product.id <$> l) → base.filter (λ q, Product.id q ≠ i) l = l.
Proof.
  induction l as [|q l IH]; [done|].
  rewrite fmap_cons, not_elem_of_cons. intros [Hne Hl].
  rewrite filter_cons_True by (cbn; congruence). f_equal. by apply IH.
Qed.

(** C6: after a delete no entry has the deleted identifier (a lookup of it
    finds nothing), the entries with another identifier are all still there,
    unchanged and in the order they had, and when no entry had the
    identifier the collection is the same. *)
Theorem delete_removes_identifier now s i :
  let s' := productReducer now s (DELETE_PRODUCT i) in
  (i ∉ product_ids s') ∧
  find (λ q, Product.id q =? i) (State.products s') = None ∧
  (∀ q, q ∈ State.products s' ↔ q ∈ State.products s ∧ Product.id q ≠ i) ∧
  State.products s' `sublist_of` State.products s ∧
  State.products s' = base.filter (λ q, Product.id q ≠ i) (State.products s) ∧
  (i ∉ product_ids s → State.products s' = State.products s) ∧
  same_view s s'.
Proof.
  intros s'. subst s'. unfold product_ids. cbn.
  assert (Hgone : i ∉ (Product.id <$>
            base.filter (λ q, Product.id q ≠ i) (State.products s))).
  { intros (q & Hq & Hin)%list_elem_of_fmap.
    apply list_elem_of_filter in Hin as [Hne _]. by destruct Hne. }
  split; [exact Hgone|]. split; [|split; [|split; [|split; [|split]]]].
  - destruct (find _ _) as [q|] eqn:Hfind; [|done].
    apply find_some in Hfind as [Hin Heq]. destruct Hgone.
    apply list_elem_of_fmap. exists q. split.
    + symmetry. by apply Z.eqb_eq.
    + by apply list_elem_of_In.
  - intros q. rewrite list_elem_of_filter. tauto.
  - apply sublist_filter.
  - done.
  - apply filter_other_ids_absent.
  - by repeat split.
Qed.

(** The reducer on the provider's initial state: a load of two products,
    an edit of the second, a removal of the first. *)
Example reducer_session :
  let p1 := Product.with_id widget 1 in
  let p2 := Product.with_id widget 2 in
  let p2' := Product.mk 2 "Gadget" "Home" 30 0 "active" 7 4.5%float in
  foldl (productReducer 1700000000000) State.initial
        [SET_PRODUCTS [p1; p2]; UPDATE_PRODUCT p2'; DELETE_PRODUCT 1;
         OTHER "RESET"]
  = State.mk [p2'] false "all" "" None.
Proof. reflexivity. Qed.

(** C2, as stated, fails: two adds that the reducer runs at one clock
    reading (here the millisecond 1700000000000) give the second entry the
    identifier the first one got. *)
Lemma add_same_millisecond_reuses_identifier :
  ¬ add_appends_fresh 1700000000000
      (productReducer 1700000000000 State.initial (ADD_PRODUCT widget))
      widget.
Proof.
  intros (q & Hq & Hfresh). cbn in Hq.
  apply (inj (app [_])), (inj (λ x, [x])) in Hq. subst q.
  apply Hfresh. unfold product_ids. cbn. by left.
Qed.

(** C2, amended: an add run at clock reading [now] appends exactly one
    entry, the payload with [now] as its identifier, after the prior entries,
    which stay as they are and where they are; the identifier is new to the
    collection exactly when no prior entry has the identifier [now], which
    is so when every prior identifier is below the clock reading. *)
Theorem add_appends_stamped now s p :
  let s' := productReducer now s (ADD_PRODUCT p) in
  State.products s' = State.products s ++ [Product.with_id p now] ∧
  length (State.products s') = S (length (State.products s)) ∧
  (∀ (k : nat) q, State.products s !! k = Some q →
     State.products s' !! k = Some q) ∧
  State.products s' !! length (State.products s)
    = Some (Product.with_id p now) ∧
  (add_appends_fresh now s p ↔ now ∉ product_ids s) ∧
  (Forall (λ j, j < now) (product_ids s) → add_appends_fresh now s p) ∧
  same_view s s'.
Proof.
  intros s'. subst s'. rewrite reducer_add_products.
  assert (Hiff : add_appends_fresh now s p ↔ now ∉ product_ids s).
  { unfold add_appends_fresh. rewrite reducer_add_products. split.
    - intros (q & Hq & Hfresh). apply (inj (app _)), (inj (λ x, [x])) in Hq.
      by subst q.
    - intros Hfresh. by exists (Product.with_id p now). }
  split; [done|]. split; [|split; [|split; [|split; [|split]]]].
  - rewrite length_app. cbn. lia.
  - intros k q Hk. by apply lookup_app_l_Some.
  - by rewrite list_lookup_middle.
  - exact Hiff.
  - intros Hlt. apply Hiff. intros Hin.
    rewrite list.Forall_forall in Hlt. specialize (Hlt _ Hin). lia.
  - by repeat split.
Qed.

(** C3, as stated, fails: the reducer reads the clock, so two evaluations
    on one state and one add, a millisecond apart, give different states. *)
Lemma add_depends_on_the_clock :
  ¬ evaluations_agree 1700000000000 1700000000001
      State.initial (ADD_PRODUCT widget).
Proof. unfold evaluations_agree. cbn. intros [=]. Qed.

(** C3, amended: the reducer is a total function of the clock reading, the
    state and the action (it returns a state on every input); on every
    action other than an add two evaluations agree whatever the clock reads;
    on an add they agree exactly when the clock reads the same in both. *)
Theorem reducer_total_clocked now1 now2 s (a : Action) :
  (∃ s', productReducer now1 s a = s') ∧
  (is_ADD_PRODUCT a = false → evaluations_agree now1 now2 s a) ∧
  (is_ADD_PRODUCT a = true → (evaluations_agree now1 now2 s a ↔ now1 = now2)).
Proof.
  split; [by eexists|]. unfold evaluations_agree.
  split; intros Ha; destruct a; try discriminate; try reflexivity.
  split.
  - cbn. intros [= Heq]. by apply (inj (app _)) in Heq as [= ->].
  - by intros ->.
Qed.

End Reducer.

(** ** The virtual list *)

Section VirtualList.

Implicit Types (products : list Product.t) (scrollTop clientHeight : Z).

Lemma ceil_div_nonneg a : 0 ≤ a → 0 ≤ ceil_div a itemHeight.
Proof.
  unfold ceil_div, itemHeight. intros Ha.
  assert ((- a) / 100 ≤ 0) by (apply Z.div_le_upper_bound; lia). lia.
Qed.

(** A slice between two indices of the array, in order, has one element
    per index. *)
Lemma slice_length {A : Type} (l : list A) (a b : Z) :
  0 ≤ a ≤ b → b ≤ Z.of_nat (length l) →
  Z.of_nat (length (slice l a b)) = b - a.
Proof.
  intros Hab Hb. unfold slice.
  destruct (Z.ltb_spec a 0), (Z.ltb_spec b 0); try lia.
  rewrite length_take, length_drop. lia.
Qed.

(** A slice that starts at or after the end of the array is empty. *)
Lemma slice_past_end {A : Type} (l : list A) (a b : Z) :
  Z.of_nat (length l) ≤ a → slice l a b = [].
Proof.
  intros Ha. unfold slice.
  destruct (Z.ltb_spec a 0); [lia|].
  rewrite drop_ge by lia. by rewrite take_nil.
Qed.

Example slice_from_the_end : slice [1; 2; 3; 4; 5] (-2) 5 = [4; 5].
Proof. reflexivity. Qed.

Example slice_clamps_end : slice [1; 2; 3] 1 10 = [2; 3].
Proof. reflexivity. Qed.

Example slice_start_after_end : slice [1; 2; 3] 2 1 = [].
Proof. reflexivity. Qed.

(** The end of the range is clamped to the array. *)
Lemma handleScroll_end_le products scrollTop clientHeight :
  Range.end_ (handleScroll products scrollTop clientHeight)
  ≤ Z.of_nat (length products).
Proof. unfold handleScroll. cbn [Range.end_]. lia. Qed.

(** X1: while the offset lies within the rows of the list (or in the row
    past the last), the two spacers and the rendered rows add up to the
    height of all rows. *)
Lemma scrolled_height_in_range products scrollTop clientHeight :
  0 ≤ scrollTop < (Z.of_nat (length products) + 1) * itemHeight →
  0 ≤ clientHeight →
  total_height (scrolled products scrollTop clientHeight)
  = Z.of_nat (length products) * itemHeight.
Proof.
  intros Hs Hc. unfold total_height, scrolled, VirtualProductList.
  set (r := handleScroll products scrollTop clientHeight).
  cbn [View.top_spacer View.rows View.bottom_spacer].
  assert (Hstart : 0 ≤ Range.start r ≤ Z.of_nat (length products)).
  { subst r. cbn [handleScroll Range.start].
    unfold floor_div, itemHeight in *. split.
    - apply Z.div_pos; lia.
    - apply Z.lt_succ_r, Z.div_lt_upper_bound; lia. }
  assert (Hend : Range.start r ≤ Range.end_ r ≤ Z.of_nat (length products)).
  { subst r. cbn [handleScroll Range.start Range.end_] in *.
    pose proof (ceil_div_nonneg clientHeight Hc). lia. }
  rewrite slice_length by lia. unfold itemHeight. lia.
Qed.

(** X1, witness: 1000 products, 50000 pixels down a container 382 high:
    a spacer of 50000 pixels above, the nine rows 500 to 508, a spacer of
    49100 pixels below. *)
Lemma scrolled_height_mid_list :
  let products := replicate 1000 widget in
  (0 ≤ 50000 < (Z.of_nat (length products) + 1) * itemHeight ∧
   0 ≤ 382) ∧
  (View.top_spacer (scrolled products 50000 382) = 50000 ∧
   length (View.rows (scrolled products 50000 382)) = 9%nat ∧
   View.bottom_spacer (scrolled products 50000 382) = 49100) ∧
  total_height (scrolled products 50000 382)
  = Z.of_nat (length products) * itemHeight.
Proof.
  intros products.
  assert (H1 : 0 ≤ 50000 < (Z.of_nat (length products) + 1) * itemHeight)
    by (vm_compute; split; [discriminate|reflexivity]).
  assert (H2 : 0 ≤ 382) by lia.
  refine (conj (conj H1 H2) (conj _
            (scrolled_height_in_range products 50000 382 H1 H2))).
  vm_compute. by repeat split.
Defined.

(** X2: whatever the offset, the end of the range is within the list, so
    the height of the spacer below is not negative. *)
Lemma scrolled_bottom_nonneg products scrollTop clientHeight :
  0 ≤ View.bottom_spacer (scrolled products scrollTop clientHeight).
Proof.
  unfold scrolled, VirtualProductList. cbn [View.bottom_spacer].
  pose proof (handleScroll_end_le products scrollTop clientHeight). lia.
Qed.

(** Past the rows of the list no row is drawn and no spacer below, and the
    spacer above alone is higher than all rows together. *)
Lemma scrolled_height_past_end products scrollTop clientHeight :
  (Z.of_nat (length products) + 1) * itemHeight ≤ scrollTop →
  0 ≤ clientHeight →
  let v := scrolled products scrollTop clientHeight in
  View.rows v = [] ∧
  View.bottom_spacer v = 0 ∧
  total_height v = scrollTop / 100 * 100 ∧
  Z.of_nat (length products) * itemHeight < total_height v.
Proof.
  intros Hs Hc v. subst v. unfold total_height, scrolled, VirtualProductList.
  set (r := handleScroll products scrollTop clientHeight).
  assert (Hstart : Z.of_nat (length products) < Range.start r
                   ∧ Range.start r = scrollTop / 100).
  { subst r. cbn [handleScroll Range.start].
    unfold floor_div, itemHeight in *. split; [|done].
    apply Z.lt_le_trans with (Z.of_nat (length products) + 1); [lia|].
    apply Z.div_le_lower_bound; lia. }
  assert (Hend : Range.end_ r = Z.of_nat (length products)).
  { subst r. cbn [handleScroll Range.start Range.end_] in *.
    pose proof (ceil_div_nonneg clientHeight Hc). lia. }
  cbn [View.top_spacer View.rows View.bottom_spacer].
  rewrite slice_past_end by lia. cbn [length]. unfold itemHeight.
  repeat split; lia.
Qed.

(** The list as first drawn, with the range the state starts from, has
    the height of all rows when there are 50 products or more. *)
Lemma first_render_height products :
  50 ≤ Z.of_nat (length products) →
  total_height (VirtualProductList products Range.initial)
  = Z.of_nat (length products) * itemHeight.
Proof.
  intros Hlen. unfold total_height, VirtualProductList.
  cbn [View.top_spacer View.rows View.bottom_spacer Range.initial
       Range.start Range.end_].
  rewrite slice_length by lia. unfold itemHeight. lia.
Qed.

(** An offset below 0, as a container reports while it bounces at the top
    under elastic scrolling: [start] is -1, the slice counts it from the end
    of the list and is empty, and the spacer above gets a negative height. *)
Example overscroll_total_height :
  let v := scrolled (replicate 1000 widget) (-50) 382 in
  View.top_spacer v = -100 ∧
  View.rows v = [] ∧
  View.bottom_spacer v = 99200 ∧
  total_height v = 99100.
Proof. by vm_compute. Qed.

(** C1, at the input where the code departs from it: a list of one product
    (100 pixels of rows) whose container reports the scroll offset 49618 and
    the client height 382 draws a spacer of 49600 pixels above, no row and
    no spacer below. *)
Theorem stale_offset_total_height :
  let v := scrolled [widget] 49618 382 in
  View.top_spacer v = 49600 ∧
  View.rows v = [] ∧
  View.bottom_spacer v = 0 ∧
  total_height v = 49600 ∧
  total_height v ≠ Z.of_nat (length [widget]) * 100.
Proof. cbn. by repeat split. Qed.

(** C4, at the input where the code departs from it: with one product in
    the list, the offset 49618 gives the start index 496 and the end index
    1; the end is clamped to the length of the list, the start is not. *)
Theorem stale_offset_start_index :
  let r := handleScroll [widget] 49618 382 in
  Range.start r = 496 ∧
  Range.end_ r = 1 ∧
  Z.of_nat (length [widget]) < Range.start r.
Proof. cbn. by repeat split. Qed.

End VirtualList.

(** ** The analytics cards *)

(** *** Decimal digits

    [digits] prints with the Standard Library's [N.to_uint]; the lemmas here
    give it digit by digit: the decimal of [10 * q + r] is the decimal of
    [q] followed by the digit [r]. *)

Section DecimalDigits.

Import Decimal.

(** [Decimal.app] puts the digits of [a] before those of [b]. *)
Lemma app_cons_digit (a b : uint) :
  match a with
  | Nil => Decimal.app a b = b
  | D0 a' => Decimal.app a b = D0 (Decimal.app a' b)
  | D1 a' => Decimal.app a b = D1 (Decimal.app a' b)
  | D2 a' => Decimal.app a b = D2 (Decimal.app a' b)
  | D3 a' => Decimal.app a b = D3 (Decimal.app a' b)
  | D4 a' => Decimal.app a b = D4 (Decimal.app a' b)
  | D5 a' => Decimal.app a b = D5 (Decimal.app a' b)
  | D6 a' => Decimal.app a b = D6 (Decimal.app a' b)
  | D7 a' => Decimal.app a b = D7 (Decimal.app a' b)
  | D8 a' => Decimal.app a b = D8 (Decimal.app a' b)
  | D9 a' => Decimal.app a b = D9 (Decimal.app a' b)
  end.
Proof.
  destruct a; apply DecimalFacts.to_list_inj;
    rewrite ?DecimalFacts.app_spec; cbn [DecimalFacts.to_list];
    rewrite ?DecimalFacts.app_spec; reflexivity.
Qed.

Lemma string_of_uint_app (a b : uint) :
  NilEmpty.string_of_uint (Decimal.app a b)
  = NilEmpty.string_of_uint a +:+ NilEmpty.string_of_uint b.
Proof.
  induction a;
    match goal with
    | |- context [Decimal.app ?x b] => pose proof (app_cons_digit x b) as H
    end;
    cbn beta iota in H; rewrite H;
    cbn [NilEmpty.string_of_uint]; rewrite ?IHa; reflexivity.
Qed.

Lemma rev_snoc_digit (a d : uint) :
  Decimal.rev (Decimal.app a d) = Decimal.revapp d (Decimal.rev a).
Proof.
  apply DecimalFacts.to_list_inj.
  rewrite DecimalFacts.rev_spec, DecimalFacts.app_spec,
    DecimalFacts.revapp_spec, DecimalFacts.rev_spec.
  by rewrite rev_app_distr, rev_append_rev.
Qed.

(** What [N.to_uint] prints has no zero in front. *)
Lemma unorm_to_uint (n : N) : unorm (N.to_uint n) = N.to_uint n.
Proof.
  by rewrite <- (DecimalN.Unsigned.to_of (N.to_uint n)),
    DecimalN.Unsigned.of_to.
Qed.

Lemma unorm_app_pos (p : positive) (d : uint) :
  unorm (Decimal.app (Pos.to_uint p) d) = Decimal.app (Pos.to_uint p) d.
Proof.
  pose proof (unorm_to_uint (N.pos p)) as Hn. cbn [N.to_uint] in Hn.
  pose proof (DecimalPos.Unsigned.to_uint_nonzero p) as Hz.
  pose proof (DecimalPos.Unsigned.to_uint_nonnil p) as Hnil.
  destruct (Pos.to_uint p) as [|a|a|a|a|a|a|a|a|a|a] eqn:Ha; [done|..];
    match goal with
    | |- context [Decimal.app ?x d] => pose proof (app_cons_digit x d) as H
    end; cbn beta iota in H; rewrite H; try reflexivity.
  exfalso. rewrite DecimalFacts.unorm_D0 in Hn.
  destruct (uint_eq_dec a Nil) as [->|Hne]; [by apply Hz|].
  pose proof (DecimalFacts.nb_digits_unorm a Hne) as Hlen. rewrite Hn in Hlen.
  cbn [nb_digits] in Hlen. lia.
Qed.

(** The decimal of [10 * q + r] is the decimal of [q] followed by the digit
    [r]. *)
Lemma to_uint_snoc (q : positive) (r : N) :
  (r < 10)%N →
  N.to_uint (10 * N.pos q + r) = Decimal.app (Pos.to_uint q) (N.to_uint r).
Proof.
  intros Hr.
  rewrite <- (unorm_app_pos q (N.to_uint r)).
  rewrite <- DecimalN.Unsigned.to_of. f_equal.
  unfold N.of_uint. rewrite DecimalPos.Unsigned.of_uint_alt, rev_snoc_digit.
  assert (Hq : DecimalPos.Unsigned.of_lu (Decimal.rev (Pos.to_uint q))
               = N.pos q).
  { rewrite <- DecimalPos.Unsigned.of_uint_alt.
    apply DecimalPos.Unsigned.of_to. }
  assert (Hcases : (r = 0 ∨ r = 1 ∨ r = 2 ∨ r = 3 ∨ r = 4 ∨ r = 5 ∨ r = 6
                    ∨ r = 7 ∨ r = 8 ∨ r = 9)%N) by lia.
  destruct Hcases as [->|[->|[->|[->|[->|[->|[->|[->|[->| ->]]]]]]]]];
    vm_compute (N.to_uint _); cbn [Decimal.revapp DecimalPos.Unsigned.of_lu];
    rewrite Hq; lia.
Qed.

Lemma digits_snoc (q r : Z) :
  0 < q → 0 ≤ r < 10 → digits (10 * q + r) = digits q +:+ digits r.
Proof.
  intros Hq Hr. unfold digits.
  replace (Z.to_N (10 * q + r)) with (10 * Z.to_N q + Z.to_N r)%N by lia.
  destruct (Z.to_N q) as [|p] eqn:Hp; [lia|].
  rewrite to_uint_snoc by lia. cbn [N.to_uint].
  assert (Hnil : ∀ a b, a ≠ Nil → NilZero.string_of_uint (Decimal.app a b)
                 = NilEmpty.string_of_uint a +:+ NilEmpty.string_of_uint b).
  { intros a b Ha. rewrite <- string_of_uint_app.
    unfold NilZero.string_of_uint.
    destruct (Decimal.app a b) eqn:Hab; try reflexivity.
    destruct a; try done;
    match type of Hab with
    | Decimal.app ?x b = _ => pose proof (app_cons_digit x b) as H
    end; cbn beta iota in H; congruence. }
  rewrite Hnil by apply DecimalPos.Unsigned.to_uint_nonnil.
  f_equal.
  - unfold NilZero.string_of_uint.
    pose proof (DecimalPos.Unsigned.to_uint_nonnil p).
    by destruct (Pos.to_uint p).
  - assert (Hcases : r = 0 ∨ r = 1 ∨ r = 2 ∨ r = 3 ∨ r = 4 ∨ r = 5 ∨ r = 6
                   ∨ r = 7 ∨ r = 8 ∨ r = 9) by lia.
    by destruct Hcases as [->|[->|[->|[->|[->|[->|[->|[->|[->| ->]]]]]]]]].
Qed.

(** A number below 10 is printed as one digit. *)
Lemma digits_one (r : Z) : r < 10 → ∃ c, digits r = String c EmptyString.
Proof.
  intros Hr. destruct (Z.le_gt_cases r 0) as [Hle|Hgt].
  - unfold digits. replace (Z.to_N r) with 0%N by lia. by eexists.
  - assert (Hcases : r = 1 ∨ r = 2 ∨ r = 3 ∨ r = 4 ∨ r = 5 ∨ r = 6
                   ∨ r = 7 ∨ r = 8 ∨ r = 9) by lia.
    destruct Hcases as [->|[->|[->|[->|[->|[->|[->|[->| ->]]]]]]]];
      by eexists.
Qed.

Lemma digits_nonempty (n : Z) : digits n ≠ EmptyString.
Proof.
  unfold digits, NilZero.string_of_uint.
  destruct (N.to_uint (Z.to_N n)); discriminate.
Qed.

End DecimalDigits.

Lemma append_cons c (a b : string) : String c a +:+ b = String c (a +:+ b).
Proof. reflexivity. Qed.

Lemma length_append_string (a b : string) :
  String.length (a +:+ b) = (String.length a + String.length b)%nat.
Proof.
  induction a as [|c a IH]; [done|].
  rewrite append_cons. cbn [String.length]. by rewrite IH.
Qed.

Lemma substring_prefix (a b : string) :
  substring 0 (String.length a) (a +:+ b) = a.
Proof.
  induction a as [|c a IH].
  - cbn [String.length]. by destruct ("" +:+ b).
  - rewrite append_cons. cbn [String.length substring]. by rewrite IH.
Qed.

Lemma substring_suffix (a b : string) :
  substring (String.length a) (String.length b) (a +:+ b) = b.
Proof.
  induction a as [|c a IH]; [|by rewrite append_cons].
  change ("" +:+ b) with b. cbn [String.length].
  induction b as [|c b IH]; cbn; [done|]. by rewrite IH.
Qed.

(** The point is set before the last digit, after a ["0"] when there is no
    other digit: [n] is printed as the decimal [n / 10]. *)
Lemma set_point_one_decimal (n : Z) :
  0 ≤ n → set_point (digits n) 1 = one_decimal n.
Proof.
  intros Hn. unfold one_decimal.
  pose proof (Z.div_mod n 10 ltac:(lia)) as Hdm.
  pose proof (Z.mod_pos_bound n 10 ltac:(lia)) as Hmod.
  assert (Hq : 0 ≤ n / 10) by (apply Z.div_pos; lia).
  destruct (digits_one (n mod 10)) as [c Hc]; [lia|].
  destruct (Z.eq_dec (n / 10) 0) as [Hzero|Hpos].
  - rewrite Hzero in *. replace n with (n mod 10) at 1 by lia.
    rewrite Hc. reflexivity.
  - rewrite Hdm at 1. rewrite digits_snoc by lia. rewrite Hc.
    pose proof (digits_nonempty (n / 10)) as Hne.
    set (dq := digits (n / 10)) in *.
    assert (Hlen : (1 ≤ String.length dq)%nat)
      by (destruct dq; [done|cbn; lia]).
    unfold set_point. rewrite length_append_string. cbn [String.length].
    replace (String.length dq + 1 <=? 1)%nat with false
      by (symmetry; apply Nat.leb_gt; lia).
    rewrite length_append_string. cbn [String.length].
    replace (String.length dq + 1 - 1)%nat with (String.length dq) by lia.
    rewrite substring_prefix.
    change 1%nat with (String.length (String c "")) at 1.
    by rewrite substring_suffix.
Qed.

(** *** The cards *)

Section AnalyticsFacts.

Variable Number_toString : float → string.

Implicit Types (products : list Product.t) (p : Product.t).

(** [reduce] from [0] adds up the sales. *)
Lemma foldl_sales_sum products (acc : Z) :
  foldl (λ sum p, sum + Product.sales p) acc products
  = acc + foldr Z.add 0 (Product.sales <$> products).
Proof.
  revert acc. induction products as [|p products IH]; intros acc; cbn.
  - lia.
  - rewrite IH. lia.
Qed.

(** The digit string that [toFixed] prints is that of the nearest integer
    to the scaled magnitude, the larger of two nearest. *)
Lemma nearest_scaled_rounds (m : positive) (e : Z) (f : nat) :
  rounds_to (nearest_scaled m e f) m e f ∧ 0 ≤ nearest_scaled m e f.
Proof.
  unfold rounds_to, nearest_scaled.
  assert (Hten : 0 < 10 ^ Z.of_nat f) by (apply Z.pow_pos_nonneg; lia).
  destruct (Z.leb_spec 0 e) as [He|He].
  - rewrite Z.max_l, Z.max_r by lia. rewrite Z.pow_0_r.
    assert (0 < 2 ^ e) by (apply Z.pow_pos_nonneg; lia).
    assert (0 < Z.pos m * 2 ^ e * 10 ^ Z.of_nat f) by nia.
    lia.
  - rewrite Z.max_r, Z.max_l by lia. rewrite Z.pow_0_r, Z.mul_1_r.
    replace (1 - e) with (Z.succ (- e)) by lia.
    rewrite Z.pow_succ_r by lia.
    set (d := 2 ^ (- e)). set (A := 2 * Z.pos m * 10 ^ Z.of_nat f).
    assert (Hd : 0 < d) by (apply Z.pow_pos_nonneg; lia).
    assert (HA : 0 < A) by (subst A; nia).
    pose proof (Z.div_mod (A + d) (2 * d) ltac:(lia)) as Hdm.
    pose proof (Z.mod_pos_bound (A + d) (2 * d) ltac:(lia)) as Hmod.
    assert (0 ≤ (A + d) / (2 * d)) by (apply Z.div_pos; lia).
    repeat split; nia.
Qed.

(** [toFixed] on a finite number below [10^21] in magnitude. *)
Lemma toFixed_finite (x : float) s m e (f : nat) :
  Prim2SF x = S754_finite s m e → at_least_1e21 m e = false →
  toFixed Number_toString x f
  = (if s then "-" else "") +:+ set_point (digits (nearest_scaled m e f)) f.
Proof. intros Hx Hsmall. unfold toFixed. by rewrite Hx, Hsmall. Qed.

(** [toFixed] rounds the number the double is, not the decimal it was
    written as: [(1.005).toFixed(2)] is ["1.00"]. *)
Example toFixed_samples :
  toFixed Number_toString 0.25 1 = "0.3" ∧
  toFixed Number_toString (1005 / 1000) 2 = "1.00" ∧
  toFixed Number_toString 2.5 0 = "3" ∧
  toFixed Number_toString (-1 / 100) 1 = "-0.0" ∧
  toFixed Number_toString 0 1 = "0.0" ∧
  toFixed Number_toString 1e20 1 = "100000000000000000000.0" ∧
  toFixed Number_toString nan 1 = "NaN" ∧
  toFixed Number_toString infinity 1 = "Infinity".
Proof. vm_compute. by repeat split. Qed.

Lemma analytics_nonempty p products :
  analytics Number_toString (p :: products)
  = Some (Analytics.mk
            (length (p :: products))
            (foldr Z.add 0 (Product.sales <$> p :: products))
            (toFixed Number_toString
               (rating_sum (p :: products)
                / number_of_nat (length (p :: products)))%float 1)
            (length (base.filter (λ q, Product.stock q = 0) (p :: products)))).
Proof.
  unfold analytics. cbn [length Nat.eqb]. rewrite foldl_sales_sum.
  by rewrite Z.add_0_l.
Qed.

(** The mean is the one of double arithmetic: the ratings 0.3 and 0.4 add
    up to the double below 0.7, half of which prints as ["0.3"]. *)
Example analytics_mean_of_doubles :
  let p1 := Product.mk 1 "A" "Books" 10 1 "active" 5 (3 / 10)%float in
  let p2 := Product.mk 2 "B" "Books" 10 0 "active" 6 (4 / 10)%float in
  analytics Number_toString [p1; p2]
  = Some (Analytics.mk 2 11 "0.3" 1).
Proof. vm_compute. reflexivity. Qed.

(** The fields of the result, on a collection that has products. *)
Lemma analytics_fields products (a : Analytics.t) :
  analytics Number_toString products = Some a →
  length products ≠ 0%nat ∧
  Analytics.totalProducts a = length products ∧
  Analytics.totalSales a = foldr Z.add 0 (Product.sales <$> products) ∧
  Analytics.averageRating a
  = toFixed Number_toString
      (rating_sum products / number_of_nat (length products))%float 1 ∧
  Analytics.outOfStock a
  = length (base.filter (λ p, Product.stock p = 0) products).
Proof.
  intros Ha. destruct products as [|p products]; [discriminate|].
  rewrite analytics_nonempty in Ha. injection Ha as <-. by repeat split.
Qed.

(** What [toFixed(1)] prints, by the kind of number. *)
Lemma toFixed_one_decimal (x : float) :
  match Prim2SF x with
  | S754_nan => toFixed Number_toString x 1 = "NaN"
  | S754_infinity s =>
      toFixed Number_toString x 1 = if s then "-Infinity" else "Infinity"
  | S754_zero _ => toFixed Number_toString x 1 = "0.0"
  | S754_finite s m e =>
      if at_least_1e21 m e
      then toFixed Number_toString x 1
           = (if s then "-" else "") +:+ Number_toString (abs x)
      else ∃ n, 0 ≤ n ∧ rounds_to n m e 1 ∧
                toFixed Number_toString x 1
                = (if s then "-" else "") +:+ one_decimal n
  end.
Proof.
  unfold toFixed. destruct (Prim2SF x) as [s| s| |s m e]; try reflexivity.
  destruct (at_least_1e21 m e); [reflexivity|].
  destruct (nearest_scaled_rounds m e 1) as [Hround Hpos].
  exists (nearest_scaled m e 1). by rewrite set_point_one_decimal.
Qed.

(** The exponent of a double is -1074 or more. *)
Lemma Prim2SF_exponent (x : float) s m e :
  Prim2SF x = S754_finite s m e → -1074 ≤ e.
Proof.
  intros Hx. pose proof (FloatAxioms.Prim2SF_valid x) as Hvalid.
  rewrite Hx in Hvalid. unfold valid_binary, bounded in Hvalid.
  apply andb_true_iff in Hvalid as [Hcanon _].
  unfold canonical_mantissa, fexp, emin, prec, emax in Hcanon.
  apply Z.eqb_eq in Hcanon. lia.
Qed.

Lemma rating_sum_snoc products p :
  rating_sum (products ++ [p])
  = (rating_sum products + Product.rating p)%float.
Proof. unfold rating_sum. by rewrite foldl_app. Qed.

(** When the double that is printed is the mean itself, what is printed is
    the mean rounded to one decimal. *)
Lemma exact_mean_is_rounded products (a : Analytics.t) (sum X : Z) :
  analytics Number_toString products = Some a →
  scaled_sum (Product.rating <$> products) = Some sum →
  scaled (rating_sum products / number_of_nat (length products))%float
  = Some X →
  X * Z.of_nat (length products) = sum →
  0 ≤ X < 10 ^ 21 * 2 ^ 1074 →
  average_is_rounded_mean products a.
Proof.
  intros Ha Hsum HX Hexact [Hpos Hsmall].
  destruct (analytics_fields products a Ha) as (Hne & _ & _ & Hav & _).
  set (x := (rating_sum products / number_of_nat (length products))%float)
    in *.
  assert (Hlen : 0 < Z.of_nat (length products)) by lia.
  set (P := 2 ^ 1074) in *.
  assert (HP : 0 < P) by (subst P; by apply Z.pow_pos_nonneg).
  unfold average_is_rounded_mean, mean_rounds_to.
  rewrite Hsum, Hav. fold P.
  pose proof (toFixed_one_decimal x) as Hprint.
  unfold scaled in HX.
  destruct (Prim2SF x) as [s0| s0| |s m e] eqn:Hx; try discriminate.
  - injection HX as <-. exists 0. rewrite Hprint.
    split; [nia|reflexivity].
  - injection HX as <-. pose proof (Prim2SF_exponent x s m e Hx) as He.
    assert (Hpow : 0 < 2 ^ (e + 1074)) by (apply Z.pow_pos_nonneg; lia).
    destruct s; [nia|]. rewrite Z.mul_1_l in *.
    assert (Hbelow : at_least_1e21 m e = false).
    { unfold at_least_1e21. destruct (Z.leb_spec 0 e) as [He0|He0].
      - apply Z.leb_gt. rewrite Z.pow_add_r in Hsmall by lia. fold P in Hsmall.
        assert (0 < 2 ^ e) by (apply Z.pow_pos_nonneg; lia). nia.
      - apply Z.leb_gt.
        assert (HPs : P = 2 ^ (- e) * 2 ^ (e + 1074)).
        { subst P. rewrite <- Z.pow_add_r by lia. f_equal. lia. }
        assert (0 < 2 ^ (- e)) by (apply Z.pow_pos_nonneg; lia). nia. }
    rewrite Hbelow in Hprint. destruct Hprint as (n & Hn & Hround & ->).
    exists n. split.
    + rewrite <- Hexact. unfold rounds_to in Hround. cbn zeta in Hround.
      destruct (Z.leb_spec 0 e) as [He0|He0].
      * rewrite Z.max_l, Z.max_r in Hround by lia.
        rewrite Z.pow_0_r in Hround.
        rewrite Z.pow_add_r by lia. fold P.
        change (10 ^ Z.of_nat 1) with 10 in Hround.
        assert (0 < 2 ^ e) by (apply Z.pow_pos_nonneg; lia). nia.
      * rewrite Z.max_r, Z.max_l in Hround by lia.
        rewrite Z.pow_0_r in Hround.
        change (10 ^ Z.of_nat 1) with 10 in Hround.
        assert (HPs : P = 2 ^ (- e) * 2 ^ (e + 1074)).
        { subst P. rewrite <- Z.pow_add_r by lia. f_equal. lia. }
        assert (0 < 2 ^ (- e)) by (apply Z.pow_pos_nonneg; lia).
        set (d := 2 ^ (- e)) in *. set (V := 2 ^ (e + 1074)) in *.
        rewrite HPs. nia.
    + unfold signed_decimal. by destruct (Z.ltb_spec n 0); [lia|].
Qed.

(** The ratings 4.0, 5.0 and 3.0 are such a case: their sum 12 and its third
    4 are doubles, so the double arithmetic loses nothing. *)
Example exact_mean_of_three :
  let products := [Product.mk 1 "A" "Books" 10 1 "active" 10 4%float;
                   Product.mk 2 "B" "Books" 10 0 "active" 20 5%float;
                   Product.mk 3 "C" "Home" 10 2 "active" 30 3%float] in
  let mean := (rating_sum products / number_of_nat (length products))%float in
  scaled_sum (Product.rating <$> products) = Some (12 * 2 ^ 1074) ∧
  scaled mean = Some (4 * 2 ^ 1074) ∧
  ∃ a, analytics Number_toString products = Some a ∧
       Analytics.averageRating a = "4.0" ∧
       average_is_rounded_mean products a.
Proof.
  intros products mean.
  assert (Hsum : scaled_sum (Product.rating <$> products)
                 = Some (12 * 2 ^ 1074)) by (vm_compute; reflexivity).
  assert (Hmean : scaled mean = Some (4 * 2 ^ 1074))
    by (vm_compute; reflexivity).
  split; [exact Hsum|]. split; [exact Hmean|].
  eexists. split; [apply analytics_nonempty|].
  split; [vm_compute; reflexivity|].
  apply (exact_mean_is_rounded products _ (12 * 2 ^ 1074) (4 * 2 ^ 1074));
    [apply analytics_nonempty|exact Hsum|exact Hmean|..].
  - vm_compute. reflexivity.
  - vm_compute. split; [discriminate|reflexivity].
Qed.

(** C7, amended: the aggregator is a function of the collection alone.  On
    the empty collection, and only there, it returns its no-data result
    ([null]) without dividing.  On any other collection it returns the number
    of products, the sum of their sales, the number of products whose stock
    is 0, and as average rating the text [toFixed(1)] prints for the double
    [mean]: the ratings added in double arithmetic, one after the other from
    0, and the sum divided in double arithmetic by the number of products
    (which is not zero).  That text is the decimal with one digit after the
    point nearest to the double (the larger of two nearest, with the sign in
    front), ["0.0"] for a zero, and the name of a value that is no number.
    It is the mean rounded to one decimal whenever the double is the mean
    itself, as for three products with sales 10, 20, 30 and ratings 4.0,
    5.0, 3.0, which give total sales 60 and average rating ["4.0"]. *)
Theorem analytics_summary products :
  (analytics Number_toString products = None ↔ products = []) ∧
  (rating_sum [] = 0%float ∧
   ∀ ps p, rating_sum (ps ++ [p])
           = (rating_sum ps + Product.rating p)%float) ∧
  (∀ a, analytics Number_toString products = Some a →
     let mean :=
       (rating_sum products / number_of_nat (length products))%float in
     length products ≠ 0%nat ∧
     Analytics.totalProducts a = length products ∧
     Analytics.totalSales a = foldr Z.add 0 (Product.sales <$> products) ∧
     Analytics.outOfStock a
     = length (base.filter (λ p, Product.stock p = 0) products) ∧
     match Prim2SF mean with
     | S754_nan => Analytics.averageRating a = "NaN"
     | S754_infinity s =>
         Analytics.averageRating a = if s then "-Infinity" else "Infinity"
     | S754_zero _ => Analytics.averageRating a = "0.0"
     | S754_finite s m e =>
         if at_least_1e21 m e
         then Analytics.averageRating a
              = (if s then "-" else "") +:+ Number_toString (abs mean)
         else ∃ n, 0 ≤ n ∧ rounds_to n m e 1 ∧
                   Analytics.averageRating a
                   = (if s then "-" else "") +:+ one_decimal n
     end ∧
     (∀ sum X,
        scaled_sum (Product.rating <$> products) = Some sum →
        scaled mean = Some X →
        X * Z.of_nat (length products) = sum →
        0 ≤ X < 10 ^ 21 * 2 ^ 1074 →
        average_is_rounded_mean products a)) ∧
  (∀ p1 p2 p3,
     Product.sales <$> [p1; p2; p3] = [10; 20; 30] →
     Product.rating <$> [p1; p2; p3] = [4.0; 5.0; 3.0]%float →
     ∃ a, analytics Number_toString [p1; p2; p3] = Some a ∧
          Analytics.totalProducts a = 3%nat ∧
          Analytics.totalSales a = 60 ∧
          Analytics.averageRating a = "4.0" ∧
          average_is_rounded_mean [p1; p2; p3] a).
Proof.
  split; [|split; [|split]].
  - destruct products as [|p products]; [done|].
    rewrite analytics_nonempty. split; discriminate.
  - split; [reflexivity|]. intros ps p. apply rating_sum_snoc.
  - intros a Ha mean.
    destruct (analytics_fields products a Ha)
      as (Hne & Hcount & Hsales & Hav & Hout).
    repeat (split; [done|]). split.
    + rewrite Hav. apply toFixed_one_decimal.
    + intros sum X Hsum HX Hexact Hrange.
      by apply (exact_mean_is_rounded products a sum X).
  - intros p1 p2 p3 Hsales Hratings. eexists. split.
    + apply analytics_nonempty.
    + cbn [Analytics.totalProducts Analytics.totalSales
           Analytics.averageRating].
      rewrite Hsales. unfold rating_sum.
      injection Hratings as H1 H2 H3. cbn [foldl length].
      rewrite H1, H2, H3. split; [done|]. split; [done|].
      split; [vm_compute; reflexivity|].
      exists 40. unfold mean_rounds_to. cbn [fmap list_fmap].
      rewrite H1, H2, H3. split; [|vm_compute; reflexivity].
      vm_compute. split; discriminate.
Qed.

End AnalyticsFacts.

(** Evaluates the sum and the denominator in a hypothesis [mean_rounds_to]. *)
Ltac evaluate_mean H :=
  unfold mean_rounds_to in H;
  match type of H with
  | context [scaled_sum ?l] =>
      let v := eval vm_compute in (scaled_sum l) in
      change (scaled_sum l) with v in H
  end;
  cbn beta iota zeta in H;
  match type of H with
  | context [Z.of_nat ?k * 2 ^ 1074] =>
      let v := eval vm_compute in (Z.of_nat k * 2 ^ 1074) in
      change (Z.of_nat k * 2 ^ 1074) with v in H
  end.

(** C7, as stated, fails: the average rating is not always the mean of the
    ratings rounded to one decimal.  With the ratings 3.1 and 4.0, both
    within what the generator gives, the sum in double arithmetic is the
    double below 7.1, its half lies below 3.55 and is printed as ["3.5"],
    while the mean of the two ratings is 3.55 or more and rounds to 3.6.
    Likewise the ratings 0.3 and 0.4 give ["0.3"], and their mean rounds to
    0.4. *)
Lemma mean_of_doubles_is_not_the_rounded_mean :
  let p1 := Product.mk 1 "A" "Books" 10 1 "active" 5 (31 / 10)%float in
  let p2 := Product.mk 2 "B" "Books" 10 0 "active" 6 4%float in
  let q1 := Product.mk 1 "A" "Books" 10 1 "active" 5 (3 / 10)%float in
  let q2 := Product.mk 2 "B" "Books" 10 0 "active" 6 (4 / 10)%float in
  (∃ a, analytics (λ _, "") [p1; p2] = Some a ∧
        Analytics.averageRating a = "3.5" ∧
        mean_rounds_to [p1; p2] 36 ∧
        signed_decimal 36 = "3.6" ∧
        ¬ average_is_rounded_mean [p1; p2] a) ∧
  (∃ a, analytics (λ _, "") [q1; q2] = Some a ∧
        Analytics.averageRating a = "0.3" ∧
        mean_rounds_to [q1; q2] 4 ∧
        signed_decimal 4 = "0.4" ∧
        ¬ average_is_rounded_mean [q1; q2] a).
Proof.
  intros p1 p2 q1 q2. split.
  - eexists. split; [vm_compute; reflexivity|].
    split; [reflexivity|]. split; [vm_compute; split; discriminate|].
    split; [reflexivity|].
    intros (n & Hn & Htext). evaluate_mean Hn.
    assert (n = 36) as -> by lia. discriminate Htext.
  - eexists. split; [vm_compute; reflexivity|].
    split; [reflexivity|]. split; [vm_compute; split; discriminate|].
    split; [reflexivity|].
    intros (n & Hn & Htext). evaluate_mean Hn.
    assert (n = 4) as -> by lia. discriminate Htext.
Qed.


(** ** The notification queue *)

Section NotificationQueue.

Implicit Types (q : Queue.t) (n : Notification.t) (es : list QueueEvent).

Lemma expire_all_now q (ts : list Timer.t) :
  Queue.now (foldl (λ q t, expire (Timer.id t) q) q ts) = Queue.now q.
Proof.
  revert q. induction ts as [|t ts IH]; intros q; [done|].
  cbn. by rewrite IH.
Qed.

Lemma expire_all_timers q (ts : list Timer.t) :
  Queue.timers (foldl (λ q t, expire (Timer.id t) q) q ts) = Queue.timers q.
Proof.
  revert q. induction ts as [|t ts IH]; intros q; [done|].
  cbn. by rewrite IH.
Qed.

(** Running the callbacks of the timeouts [ts] leaves the messages that
    none of them closes over. *)
Lemma expire_all_elem q (ts : list Timer.t) n :
  n ∈ Queue.notifications (foldl (λ q t, expire (Timer.id t) q) q ts)
  ↔ n ∈ Queue.notifications q ∧ Notification.id n ∉ (Timer.id <$> ts).
Proof.
  revert q. induction ts as [|t ts IH]; intros q.
  - cbn. rewrite elem_of_nil. tauto.
  - cbn [foldl]. rewrite IH. cbn [expire Queue.notifications].
    rewrite list_elem_of_filter, fmap_cons, not_elem_of_cons. tauto.
Qed.

Lemma expire_all_sublist q (ts : list Timer.t) :
  Queue.notifications (foldl (λ q t, expire (Timer.id t) q) q ts)
  `sublist_of` Queue.notifications q.
Proof.
  revert q. induction ts as [|t ts IH]; intros q; [done|].
  cbn [foldl]. etrans; [apply IH|]. apply sublist_filter.
Qed.

Lemma elapse_now ms q : Queue.now (elapse ms q) = Queue.now q + Z.of_N ms.
Proof. unfold elapse. by rewrite expire_all_now. Qed.

Lemma elapse_timers ms q :
  Queue.timers (elapse ms q)
  = base.filter (λ t, ¬ Timer.due t ≤ Queue.now q + Z.of_N ms) (Queue.timers q).
Proof. unfold elapse. by rewrite expire_all_timers. Qed.

Lemma elapse_elem ms q n :
  n ∈ Queue.notifications (elapse ms q)
  ↔ n ∈ Queue.notifications q
    ∧ Notification.id n
      ∉ (Timer.id <$> base.filter (λ t, Timer.due t ≤ Queue.now q + Z.of_N ms)
                                   (Queue.timers q)).
Proof. unfold elapse. by rewrite expire_all_elem. Qed.

(** No event takes the clock back, and none puts the messages out of
    order or adds one other than at the end. *)
Lemma queue_step_now q e : Queue.now q ≤ Queue.now (queue_step q e).
Proof. destruct e; cbn; [lia|lia|]. rewrite elapse_now. lia. Qed.

Lemma queue_run_now es q : Queue.now q ≤ Queue.now (queue_run es q).
Proof.
  revert q. induction es as [|e es IH]; intros q; cbn; [lia|].
  etrans; [apply (queue_step_now q e)|apply IH].
Qed.

Lemma queue_inv_initial t0 : queue_inv (Queue.initial t0).
Proof. split; cbn; intros ? []%elem_of_nil. Qed.

Lemma queue_inv_step q e : queue_inv q → queue_inv (queue_step q e).
Proof.
  intros [Hst Hpe Hde Hnd]. destruct e as [n0|i|ms]; cbn [queue_step].
  - split; cbn.
    + intros n [Hn| ->%list_elem_of_singleton]%elem_of_app; [by apply Hst|].
      cbn. lia.
    + intros n [Hn| ->%list_elem_of_singleton]%elem_of_app;
        apply elem_of_app; [left; by apply Hpe|right]. cbn. by left.
    + intros t [Ht| ->%list_elem_of_singleton]%elem_of_app; [by apply Hde|].
      done.
    + intros t [Ht| ->%list_elem_of_singleton]%elem_of_app; [by apply Hnd|].
      cbn. lia.
  - split; cbn; try done.
    + intros n [_ Hn]%list_elem_of_filter. by apply Hst.
    + intros n [_ Hn]%list_elem_of_filter. by apply Hpe.
  - split.
    + intros n [Hn _]%elapse_elem. rewrite elapse_now.
      specialize (Hst _ Hn). lia.
    + intros n [Hn Hkept]%elapse_elem. rewrite elapse_timers.
      apply list_elem_of_filter. split; [|by apply Hpe].
      intros Hdue. apply Hkept.
      apply (list_elem_of_fmap_2' Timer.id _
               (Timer.mk (Notification.id n + 5000) (Notification.id n)));
        [|done].
      apply list_elem_of_filter. split; [done|by apply Hpe].
    + intros t. rewrite elapse_timers.
      intros [_ Ht]%list_elem_of_filter. by apply Hde.
    + intros t. rewrite elapse_timers, elapse_now.
      intros [Hwait _]%list_elem_of_filter. lia.
Qed.

Lemma queue_inv_run es q : queue_inv q → queue_inv (queue_run es q).
Proof.
  revert q. induction es as [|e es IH]; intros q Hq; [done|].
  cbn. by apply IH, queue_inv_step.
Qed.

Lemma queue_step_sublist q e :
  is_Some (match e with Enqueue _ => None | _ => Some e end) →
  Queue.notifications (queue_step q e) `sublist_of` Queue.notifications q.
Proof.
  destruct e as [n0|i|ms]; intros [? [=]]; cbn [queue_step].
  - apply sublist_filter.
  - unfold elapse. apply (expire_all_sublist (Queue.mk _ _ _)).
Qed.

(** The queue lists, in the order they were enqueued, those of the messages
    it had or was given that are still there. *)
Lemma queue_run_sublist es q :
  Queue.notifications (queue_run es q)
  `sublist_of` Queue.notifications q ++ enqueued es q.
Proof.
  revert q. induction es as [|e es IH]; intros q.
  - cbn. by rewrite app_nil_r.
  - cbn [queue_run foldl]. etrans; [apply IH|]. destruct e as [n0|i|ms].
    + cbn [queue_step addNotification Queue.notifications enqueued].
      by rewrite <- app_assoc.
    + cbn [enqueued]. apply sublist_app; [|done].
      by apply queue_step_sublist.
    + cbn [enqueued]. apply sublist_app; [|done].
      by apply queue_step_sublist.
Qed.

(** A message stays in the queue as long as nobody dismisses its identifier
    and 5000 ms have not passed since it was enqueued. *)
Lemma queue_run_keeps es q n :
  queue_inv q → n ∈ Queue.notifications q →
  Dismiss (Notification.id n) ∉ es →
  Queue.now (queue_run es q) < Notification.id n + 5000 →
  n ∈ Queue.notifications (queue_run es q).
Proof.
  revert q. induction es as [|e es IH]; intros q Hq Hn Hes Hnow; [done|].
  apply not_elem_of_cons in Hes as [He Hes]. cbn [queue_run foldl] in *.
  apply IH; [by apply queue_inv_step| |done|done].
  pose proof (queue_run_now es (queue_step q e)) as Hmono.
  unfold queue_run in Hmono.
  destruct e as [n0|i|ms]; cbn [queue_step] in *.
  - cbn. apply elem_of_app. by left.
  - cbn. apply list_elem_of_filter. split; [congruence|done].
  - apply elapse_elem. split; [done|].
    intros (t & Hid & [Hdue Ht]%list_elem_of_filter)%list_elem_of_fmap.
    rewrite elapse_now in Hmono. rewrite (inv_delay q Hq t Ht) in Hdue. lia.
Qed.

(** Two messages 4999 ms apart: a millisecond later the first is gone, the
    second stays, with its timeout. *)
Example queue_session :
  let saved := Notification.mk "success" "Product updated successfully" 0 in
  let gone := Notification.mk "success" "Product deleted successfully" 0 in
  queue_run [Enqueue saved; Elapse 4999; Enqueue gone; Elapse 1]
            (Queue.initial 0)
  = Queue.mk 5000 [Notification.with_id gone 4999] [Timer.mk 9999 4999].
Proof. reflexivity. Qed.

(** C8, as stated, fails: a second message enqueued while the clock still
    reads what it read for the first gets the identifier of the first, which
    is in the queue. *)
Lemma enqueue_same_millisecond_reuses_identifier :
  ¬ enqueue_is_fresh
      (Notification.mk "success" "Product updated successfully" 0)
      (queue_run
         [Enqueue (Notification.mk "success" "Product deleted successfully" 0)]
         (Queue.initial 1700000000000)).
Proof.
  intros (m & Hm & Hfresh). cbn in Hm.
  injection Hm as <-. apply Hfresh. cbn. by left.
Qed.

(** C8, amended: whatever is enqueued and dismissed, and however time
    passes, from an empty queue on: a message gets as identifier the clock
    reading at which it is enqueued, which no message in the queue has when
    the clock has advanced since the last event; no message is in the queue
    5000 ms or more after it was enqueued; until then it stays in the queue
    unless its identifier is dismissed; and the queue lists its messages in
    the order they were enqueued. *)
Theorem queue_expires_in_order (t0 : Z) es :
  let q := queue_run es (Queue.initial t0) in
  (∀ n, Queue.notifications (addNotification n q)
        = Queue.notifications q ++ [Notification.with_id n (Queue.now q)]) ∧
  (∀ n, enqueue_is_fresh n q ↔ Queue.now q ∉ queue_ids q) ∧
  (∀ n ms, (0 < ms)%N → enqueue_is_fresh n (queue_step q (Elapse ms))) ∧
  Forall (λ n, Notification.id n ≤ Queue.now q < Notification.id n + 5000)
         (Queue.notifications q) ∧
  (∀ n es', n ∈ Queue.notifications q →
     Dismiss (Notification.id n) ∉ es' →
     Queue.now (queue_run es' q) < Notification.id n + 5000 →
     n ∈ Queue.notifications (queue_run es' q)) ∧
  Queue.notifications q `sublist_of` enqueued es (Queue.initial t0).
Proof.
  intros q.
  assert (Hq : queue_inv q) by apply queue_inv_run, queue_inv_initial.
  assert (Hfresh : ∀ n q', enqueue_is_fresh n q' ↔ Queue.now q' ∉ queue_ids q').
  { intros n q'. unfold enqueue_is_fresh. cbn. split.
    - intros (m & Hm & Hid). apply (inj (app _)) in Hm as [= <-]. done.
    - intros Hid. by eexists. }
  split; [done|]. split; [done|]. split; [|split; [|split]].
  - intros n ms Hms. apply Hfresh. cbn [queue_step].
    intros (m & Hid & Hm)%list_elem_of_fmap.
    apply elapse_elem in Hm as [Hm _]. rewrite elapse_now in Hid.
    pose proof (inv_stamped q Hq m Hm). lia.
  - apply list.Forall_forall. intros n Hn. split.
    + by apply (inv_stamped q Hq).
    + by apply (inv_not_due q Hq _ (inv_pending q Hq n Hn)).
  - intros n es' Hn Hes' Hnow. by apply queue_run_keeps.
  - apply (queue_run_sublist es (Queue.initial t0)).
Qed.

End NotificationQueue.

(** ** The simulated load *)

Section LoadFacts.

Variable generated : list Product.t.

Implicit Types (l : Loader.t) (es : list LoadEvent).

Lemma waited_nonneg es : 0 ≤ waited es.
Proof. induction es as [|[ms|] es IH]; cbn [waited]; lia. Qed.

Lemma load_run_cons e es l :
  load_run generated (e :: es) l
  = load_run generated es (load_step generated l e).
Proof. reflexivity. Qed.

(** Time passing short of the timeout moves the clock only. *)
Lemma load_elapse_early ms l (due : Z) :
  Loader.resume_at l = Some due →
  Loader.now l + Z.of_N ms < due →
  load_elapse generated ms l
  = Loader.mk (Loader.store l) (Loader.now l + Z.of_N ms) (Loader.aborted l)
              (Some due) (Loader.dispatched l).
Proof.
  intros Hdue Hnow. unfold load_elapse. rewrite Hdue.
  by destruct (Z.leb_spec due (Loader.now l + Z.of_N ms)); [lia|].
Qed.

(** Before the timeout is due nothing is dispatched: only the clock moves,
    and the flag when the cleanup runs. *)
Lemma load_run_waiting es l (due : Z) :
  Loader.resume_at l = Some due →
  Loader.now l + waited es < due →
  let l' := load_run generated es l in
  Loader.store l' = Loader.store l ∧
  Loader.dispatched l' = Loader.dispatched l ∧
  Loader.resume_at l' = Some due ∧
  Loader.now l' = Loader.now l + waited es.
Proof.
  revert l. induction es as [|e es IH]; intros l Hdue Hnow.
  - cbn in *. repeat split; [done|lia].
  - pose proof (waited_nonneg es) as Hpos. cbn zeta. rewrite load_run_cons.
    destruct e as [ms|]; cbn [load_step waited] in *.
    + rewrite (load_elapse_early ms l due) by (done || lia).
      destruct (IH (Loader.mk (Loader.store l) (Loader.now l + Z.of_N ms)
                              (Loader.aborted l) (Some due)
                              (Loader.dispatched l)))
        as (Hs & Hd & Hr & Hn); [done|cbn [Loader.now]; lia|].
      cbn [Loader.store Loader.now Loader.dispatched] in *.
      repeat split; [done|done|done|lia].
    + destruct (IH (cleanup l)) as (Hs & Hd & Hr & Hn); [done|cbn; lia|].
      cbn in *. by repeat split.
Qed.

(** Once the controller is aborted nothing is dispatched any more. *)
Lemma load_step_aborted e l :
  Loader.aborted l = true →
  Loader.store (load_step generated l e) = Loader.store l ∧
  Loader.dispatched (load_step generated l e) = Loader.dispatched l ∧
  Loader.aborted (load_step generated l e) = true.
Proof.
  intros Hab. destruct e as [ms|]; cbn [load_step]; [|done].
  unfold load_elapse, resume.
  destruct (Loader.resume_at l) as [due|]; [|done].
  destruct (due <=? Loader.now l + Z.of_N ms); [|done].
  cbn [Loader.aborted]. by rewrite Hab.
Qed.

Lemma load_run_aborted es l :
  Loader.aborted l = true →
  let l' := load_run generated es l in
  Loader.store l' = Loader.store l ∧
  Loader.dispatched l' = Loader.dispatched l ∧
  Loader.aborted l' = true.
Proof.
  revert l. induction es as [|e es IH]; intros l Hab; [done|].
  cbn zeta. rewrite load_run_cons.
  destruct (load_step_aborted e l Hab) as (Hs & Hd & Ha).
  destruct (IH _ Ha) as (Hs' & Hd' & Ha').
  rewrite Hs', Hd', Ha'. by repeat split.
Qed.

(** C9: when the cleanup of the effect runs before the second of the
    simulated load is over, then, however long one waits afterwards, the
    only action dispatched is the set-loading of the start, no
    set-collection is; the collection is the one the store had (the empty
    one of the provider's initial state) and the loading flag is true. *)
Theorem load_cancelled_keeps_loading (s : State.t) (t0 : Z) es1 es2 :
  waited es1 < 1000 →
  let l := load_run generated (es1 ++ Cleanup :: es2)
                    (mount (Loader.initial s t0)) in
  Loader.dispatched l = [SET_LOADING true] ∧
  existsb is_SET_PRODUCTS (Loader.dispatched l) = false ∧
  State.products (Loader.store l) = State.products s ∧
  State.loading (Loader.store l) = true ∧
  (s = State.initial → Loader.store l = State.initial).
Proof.
  intros Hwait l. subst l. unfold load_run. rewrite foldl_app. cbn [foldl].
  destruct (load_run_waiting es1 (mount (Loader.initial s t0)) (t0 + 1000))
    as (Hs & Hd & _ & _); [done|cbn; lia|].
  destruct (load_run_aborted es2
              (load_step generated
                 (foldl (load_step generated) (mount (Loader.initial s t0)) es1)
                 Cleanup))
    as (Hs' & Hd' & _); [done|].
  unfold load_run in *. rewrite Hd', Hs'. cbn [load_step cleanup Loader.store
    Loader.dispatched]. rewrite Hd, Hs. cbn.
  repeat split. by intros ->.
Qed.

End LoadFacts.

(** C9, witness: the cleanup one millisecond before the load would
    complete, then five seconds of waiting. *)
Lemma load_cancelled_at_999 :
  let l := load_run [widget] ([Wait 999] ++ Cleanup :: [Wait 5000])
                    (mount (Loader.initial State.initial 1700000000000)) in
  Loader.dispatched l = [SET_LOADING true] ∧
  existsb is_SET_PRODUCTS (Loader.dispatched l) = false ∧
  State.products (Loader.store l) = State.products State.initial ∧
  State.loading (Loader.store l) = true ∧
  (State.initial = State.initial → Loader.store l = State.initial).
Proof.
  apply (load_cancelled_keeps_loading [widget] State.initial 1700000000000
           [Wait 999] [Wait 5000]).
  reflexivity.
Defined.

(** ** The store: uniqueness of identifiers, and how the actions compose *)

Section StoreInvariant.

Implicit Types (s : State.t) (p q : Product.t) (now i j : Z).

(** An update leaves the identifiers as they are, entry by entry. *)
Lemma update_keeps_ids now s p :
  product_ids (productReducer now s (UPDATE_PRODUCT p)) = product_ids s.
Proof.
  unfold product_ids. cbn. induction (State.products s) as [|q l IH]; [done|].
  cbn. rewrite IH. f_equal.
  by destruct (Z.eqb_spec (Product.id q) (Product.id p)).
Qed.

(** The identifiers after a delete are the others, in order. *)
Lemma delete_ids now s i :
  product_ids (productReducer now s (DELETE_PRODUCT i))
  = base.filter (λ j, j ≠ i) (product_ids s).
Proof.
  unfold product_ids. cbn. induction (State.products s) as [|q l IH]; [done|].
  rewrite fmap_cons. destruct (decide (Product.id q = i)) as [Heq|Hne].
  - rewrite !filter_cons_False by (cbn; tauto). exact IH.
  - rewrite !filter_cons_True by done. rewrite fmap_cons. by f_equal.
Qed.

Lemma ids_unique_step now s (a : Action) :
  NoDup (product_ids s) →
  (∀ ps, a = SET_PRODUCTS ps → NoDup (Product.id <$> ps)) →
  (is_ADD_PRODUCT a = true → now ∉ product_ids s) →
  NoDup (product_ids (productReducer now s a)).
Proof.
  intros Hs Hset Hadd. destruct a as [ps|b|f|t|p|p|i|e|ty]; try exact Hs.
  - by apply Hset.
  - unfold product_ids. cbn. rewrite fmap_app. apply list.NoDup_app.
    split; [exact Hs|]. split; [|apply NoDup_singleton].
    intros j Hj ->%list_elem_of_singleton. by apply Hadd.
  - by rewrite update_keeps_ids.
  - rewrite delete_ids. by apply list.NoDup_filter.
Qed.

(** X4: no two entries of the collection share an identifier after an
    action if none did before, provided a set-collection brings a payload
    without repeated identifiers and an add runs at a clock reading that is
    no identifier of the collection. *)
Theorem reducer_keeps_ids_unique now s (a : Action) :
  NoDup (product_ids s) →
  (∀ ps, a = SET_PRODUCTS ps → NoDup (Product.id <$> ps)) →
  (is_ADD_PRODUCT a = true → now ∉ product_ids s) →
  NoDup (product_ids (productReducer now s a)).
Proof. apply ids_unique_step. Qed.

(** X4, witness: a second add, a millisecond after the first. *)
Lemma second_add_keeps_ids_unique :
  NoDup (product_ids
           (productReducer 1700000000001
              (productReducer 1700000000000 State.initial
                 (ADD_PRODUCT widget))
              (ADD_PRODUCT widget))).
Proof.
  apply reducer_keeps_ids_unique.
  - unfold product_ids. cbn. apply NoDup_singleton.
  - intros ps [=].
  - intros _. unfold product_ids. cbn.
    intros [=]%list_elem_of_singleton.
Defined.

Lemma filter_one_out (l : list Product.t) i :
  NoDup (Product.id <$> l) → i ∈ (Product.id <$> l) →
  S (length (base.filter (λ q, Product.id q ≠ i) l)) = length l.
Proof.
  induction l as [|q l IH]; [by intros _ ?%elem_of_nil|].
  rewrite fmap_cons, list.NoDup_cons. intros [Hq Hl] Hin.
  destruct (decide (Product.id q = i)) as [Heq|Hne].
  - rewrite filter_cons_False by (cbn; tauto). cbn. f_equal.
    f_equal. apply filter_other_ids_absent. by rewrite <- Heq.
  - rewrite filter_cons_True by done. cbn. f_equal. apply IH; [done|].
    apply elem_of_cons in Hin as [Heq|Hin]; [by destruct Hne|done].
Qed.

(** X5: when no two entries share an identifier, deleting an identifier
    that is in the collection removes exactly one entry. *)
Theorem delete_present_removes_one now s i :
  NoDup (product_ids s) → i ∈ product_ids s →
  S (length (State.products (productReducer now s (DELETE_PRODUCT i))))
  = length (State.products s).
Proof. intros Hs Hi. cbn. by apply filter_one_out. Qed.

(** X5, witness: two products, the first deleted. *)
Lemma delete_first_of_two :
  S (length (State.products
               (productReducer 0
                  (State.with_products
                     [Product.with_id widget 1; Product.with_id widget 2]
                     State.initial)
                  (DELETE_PRODUCT 1))))
  = length [Product.with_id widget 1; Product.with_id widget 2].
Proof.
  apply (delete_present_removes_one 0
           (State.with_products
              [Product.with_id widget 1; Product.with_id widget 2]
              State.initial) 1).
  - unfold product_ids. cbn. apply list.NoDup_cons. split.
    + intros [=]%list_elem_of_singleton.
    + apply NoDup_singleton.
  - unfold product_ids. cbn. by left.
Defined.

(** X6: an add at a clock reading that is no identifier of the collection,
    followed by the delete of that reading, gives the state back. *)
Theorem add_then_delete_restores now now' s p :
  now ∉ product_ids s →
  productReducer now' (productReducer now s (ADD_PRODUCT p))
                 (DELETE_PRODUCT now)
  = s.
Proof.
  intros Hfresh. destruct s as [ps l f t e]. cbn. unfold State.with_products.
  cbn. f_equal. rewrite list.filter_app.
  rewrite filter_other_ids_absent by done.
  rewrite filter_cons_False by (cbn; tauto). cbn. by rewrite app_nil_r.
Qed.

(** X6, witness: a collection of two products, with the identifiers 1 and
    2, under the filter "Books"; the add comes at the reading 1700000000000,
    the delete 50 ms later, and both products are there as before. *)
Lemma add_then_delete_among_two :
  let s := State.mk [Product.with_id widget 1;
                     Product.mk 2 "Lamp" "Home" 40 0 "active" 3 3.5%float]
                    false "Books" "" None in
  (1700000000000 ∉ product_ids s) ∧
  productReducer 1700000000050
    (productReducer 1700000000000 s (ADD_PRODUCT widget))
    (DELETE_PRODUCT 1700000000000)
  = s.
Proof.
  intros s.
  assert (Hfresh : 1700000000000 ∉ product_ids s).
  { unfold product_ids. cbn.
    intros [?|[?|?%elem_of_nil]%elem_of_cons]%elem_of_cons; done. }
  exact (conj Hfresh
           (add_then_delete_restores 1700000000000 1700000000050 s widget
              Hfresh)).
Defined.

(** X7: deleting an identifier twice is deleting it once, and two deletes
    give the same state in either order. *)
Theorem deletes_commute now1 now2 now3 now4 s i j :
  productReducer now2 (productReducer now1 s (DELETE_PRODUCT i))
                 (DELETE_PRODUCT i)
  = productReducer now1 s (DELETE_PRODUCT i) ∧
  productReducer now2 (productReducer now1 s (DELETE_PRODUCT i))
                 (DELETE_PRODUCT j)
  = productReducer now4 (productReducer now3 s (DELETE_PRODUCT j))
                   (DELETE_PRODUCT i).
Proof.
  destruct s as [ps l f t e]. cbn. unfold State.with_products. cbn. split.
  - f_equal. rewrite list_filter_filter. apply list_filter_iff. tauto.
  - f_equal. rewrite !list_filter_filter. apply list_filter_iff. tauto.
Qed.

Lemma fmap_replace_unique (l : list Product.t) p q (k : nat) :
  NoDup (Product.id <$> l) → l !! k = Some q → Product.id q = Product.id p →
  (λ q', if Product.id q' =? Product.id p then p else q') <$> l
  = <[k:=p]> l.
Proof.
  revert k. induction l as [|q' l IH]; intros k; [done|].
  rewrite fmap_cons, list.NoDup_cons. intros [Hq' Hl] Hk Hid.
  destruct k as [|k]; cbn in *.
  - injection Hk as ->. rewrite (proj2 (Z.eqb_eq _ _) Hid). f_equal.
    apply fmap_replace_absent. by rewrite <- Hid.
  - destruct (Z.eqb_spec (Product.id q') (Product.id p)) as [Heq|_].
    + destruct Hq'. rewrite Heq, <- Hid.
      apply list_elem_of_fmap. exists q. split; [done|].
      by apply list_elem_of_lookup_2 in Hk.
    + f_equal. by apply IH.
Qed.

(** X8: when no two entries share an identifier, an update whose payload
    has the identifier of the entry at position [k] puts the payload at [k]
    and changes no other position. *)
Theorem update_unique_replaces_one now s p q (k : nat) :
  NoDup (product_ids s) →
  State.products s !! k = Some q → Product.id q = Product.id p →
  State.products (productReducer now s (UPDATE_PRODUCT p))
  = <[k:=p]> (State.products s).
Proof. intros Hs Hk Hid. cbn. by eapply fmap_replace_unique. Qed.

(** X8, witness: the second of two products edited. *)
Lemma update_second_of_two :
  State.products
    (productReducer 0
       (State.with_products
          [Product.with_id widget 1; Product.with_id widget 2] State.initial)
       (UPDATE_PRODUCT (Product.mk 2 "Gadget" "Home" 30 0 "active" 7 4.5)))
  = <[1%nat:=Product.mk 2 "Gadget" "Home" 30 0 "active" 7 4.5]>
      [Product.with_id widget 1; Product.with_id widget 2].
Proof.
  apply (update_unique_replaces_one 0
           (State.with_products
              [Product.with_id widget 1; Product.with_id widget 2]
              State.initial)
           (Product.mk 2 "Gadget" "Home" 30 0 "active" 7 4.5)
           (Product.with_id widget 2) 1).
  - unfold product_ids. cbn. apply list.NoDup_cons. split.
    + intros [=]%list_elem_of_singleton.
    + apply NoDup_singleton.
  - reflexivity.
  - reflexivity.
Defined.

End StoreInvariant.

(** ** The virtual list: what the window holds *)

Section Window.

Implicit Types (products : list Product.t) (scrollTop clientHeight : Z).

(** With both indices at or after the start of the array and the end
    within it, a slice drops the elements before the start and takes those
    up to the end. *)
Lemma slice_take_drop {A : Type} (l : list A) (a b : Z) :
  0 ≤ a → 0 ≤ b ≤ Z.of_nat (length l) →
  slice l a b = take (Z.to_nat (b - a)) (drop (Z.to_nat a) l).
Proof.
  intros Ha Hb. unfold slice.
  destruct (Z.ltb_spec a 0), (Z.ltb_spec b 0); try lia.
  rewrite (Z.min_l b) by lia.
  destruct (Z.le_gt_cases a (Z.of_nat (length l))) as [Hle|Hgt].
  - rewrite Z.min_l by lia. f_equal. lia.
  - rewrite Z.min_r by lia. rewrite !drop_ge by lia. by rewrite !take_nil.
Qed.

(** The range that [handleScroll] computes for an offset and a client
    height that are not negative. *)
Lemma handleScroll_range products scrollTop clientHeight :
  0 ≤ scrollTop → 0 ≤ clientHeight →
  let r := handleScroll products scrollTop clientHeight in
  0 ≤ Range.start r ∧
  Range.start r * 100 ≤ scrollTop < (Range.start r + 1) * 100 ∧
  0 ≤ Range.end_ r ≤ Z.of_nat (length products) ∧
  Range.end_ r ≤ Range.start r + ceil_div clientHeight itemHeight + 5 ∧
  scrollTop + clientHeight
  ≤ (Range.start r + ceil_div clientHeight itemHeight + 1) * 100.
Proof.
  intros Hs Hc. cbn [handleScroll Range.start Range.end_].
  unfold floor_div, ceil_div, itemHeight.
  pose proof (Z.div_mod scrollTop 100 ltac:(lia)) as Hdm.
  pose proof (Z.mod_pos_bound scrollTop 100 ltac:(lia)) as Hmod.
  pose proof (Z.div_mod (- clientHeight) 100 ltac:(lia)) as Hdm'.
  pose proof (Z.mod_pos_bound (- clientHeight) 100 ltac:(lia)) as Hmod'.
  assert (0 ≤ scrollTop / 100) by (apply Z.div_pos; lia).
  assert ((- clientHeight) / 100 ≤ 0)
    by (apply Z.div_le_upper_bound; lia).
  lia.
Qed.

(** X9: for an offset and a client height that are not negative, the rows
    drawn are at most [ceil(clientHeight / 100) + 5], whatever the length
    of the list, and the row at position [j] of the window is the product
    at index [start + j] of the list. *)
Theorem window_is_bounded products scrollTop clientHeight :
  0 ≤ scrollTop → 0 ≤ clientHeight →
  let v := scrolled products scrollTop clientHeight in
  Z.of_nat (length (View.rows v)) ≤ ceil_div clientHeight itemHeight + 5 ∧
  ∀ (j : nat) p, View.rows v !! j = Some p →
    products !! (Z.to_nat (scrollTop / 100) + j)%nat = Some p.
Proof.
  intros Hs Hc v. subst v. unfold scrolled, VirtualProductList.
  destruct (handleScroll_range products scrollTop clientHeight Hs Hc)
    as (Hstart & _ & Hend & Hwin & _).
  cbn [View.rows]. rewrite slice_take_drop by lia. split.
  - pose proof (ceil_div_nonneg clientHeight Hc). rewrite length_take. lia.
  - intros j p [Hj _]%lookup_take_Some. by rewrite lookup_drop in Hj.
Qed.

(** X9, witness: 1000 products, the container 382 high, scrolled to
    50000. *)
Lemma window_of_nine_rows :
  let v := scrolled (replicate 1000 widget) 50000 382 in
  Z.of_nat (length (View.rows v)) ≤ ceil_div 382 itemHeight + 5 ∧
  ∀ (j : nat) p, View.rows v !! j = Some p →
    replicate 1000 widget !! (Z.to_nat (50000 / 100) + j)%nat = Some p.
Proof.
  apply (window_is_bounded (replicate 1000 widget) 50000 382); lia.
Defined.

(** X10: for an offset and a client height that are not negative, every
    product whose row of 100 pixels meets the viewport (from [scrollTop] to
    [scrollTop + clientHeight]) is drawn, at its place in the window, with
    the spacer above standing for the rows before the window. *)
Theorem visible_rows_are_rendered products scrollTop clientHeight
    (i : nat) p :
  0 ≤ scrollTop → 0 ≤ clientHeight →
  products !! i = Some p →
  Z.of_nat i * 100 < scrollTop + clientHeight →
  scrollTop < (Z.of_nat i + 1) * 100 →
  let v := scrolled products scrollTop clientHeight in
  View.rows v !! (i - Z.to_nat (scrollTop / 100))%nat = Some p ∧
  View.top_spacer v
  + Z.of_nat (i - Z.to_nat (scrollTop / 100)) * 100 = Z.of_nat i * 100.
Proof.
  intros Hs Hc Hi Hbelow Habove v. subst v.
  unfold scrolled, VirtualProductList.
  destruct (handleScroll_range products scrollTop clientHeight Hs Hc)
    as (Hstart & Hrow & Hend & _ & Hwin).
  pose proof (lookup_lt_Some _ _ _ Hi) as Hlen.
  assert (Hsi : Range.start (handleScroll products scrollTop clientHeight)
                = scrollTop / 100) by reflexivity.
  assert (Hend' : Z.of_nat i
                  < Range.end_ (handleScroll products scrollTop clientHeight)).
  { cbn [handleScroll Range.start Range.end_] in *.
    unfold floor_div in *. lia. }
  cbn [View.rows View.top_spacer]. rewrite slice_take_drop by lia.
  rewrite Hsi in *. split.
  - rewrite lookup_take_lt by lia. rewrite lookup_drop.
    rewrite <- Hi. f_equal. lia.
  - lia.
Qed.

(** X10, witness: the product at index 503 of 1000, the container 382 high
    and scrolled to 50000. *)
Lemma row_503_is_rendered :
  let v := scrolled (replicate 1000 widget) 50000 382 in
  View.rows v !! (503 - Z.to_nat (50000 / 100))%nat = Some widget ∧
  View.top_spacer v
  + Z.of_nat (503 - Z.to_nat (50000 / 100)) * 100 = Z.of_nat 503 * 100.
Proof.
  apply (visible_rows_are_rendered (replicate 1000 widget) 50000 382 503
           widget); [lia|lia|reflexivity|lia|lia].
Defined.

End Window.

(** ** The simulated load: what it dispatches *)

Section LoadDispatch.

Variable generated : list Product.t.

Implicit Types (l : Loader.t) (es : list LoadEvent).

(** With no continuation pending, nothing is dispatched. *)
Lemma load_step_idle e l :
  Loader.resume_at l = None →
  Loader.store (load_step generated l e) = Loader.store l ∧
  Loader.dispatched (load_step generated l e) = Loader.dispatched l ∧
  Loader.resume_at (load_step generated l e) = None.
Proof.
  intros Hidle. destruct e as [ms|]; cbn [load_step]; [|done].
  unfold load_elapse. by rewrite Hidle.
Qed.

Lemma load_run_idle es l :
  Loader.resume_at l = None →
  Loader.store (load_run generated es l) = Loader.store l ∧
  Loader.dispatched (load_run generated es l) = Loader.dispatched l.
Proof.
  revert l. induction es as [|e es IH]; intros l Hidle; [done|].
  rewrite load_run_cons.
  destruct (load_step_idle e l Hidle) as (Hs & Hd & Hr).
  destruct (IH _ Hr) as (Hs' & Hd'). by rewrite Hs', Hd'.
Qed.

(** The two histories a load can have. *)
Lemma load_step_history e l (s1 : State.t) :
  (Loader.dispatched l = [SET_LOADING true] ∧ Loader.store l = s1)
  ∨ (Loader.dispatched l = [SET_LOADING true; SET_PRODUCTS generated]
     ∧ Loader.store l
       = State.with_loading false (State.with_products generated s1)
     ∧ Loader.resume_at l = None) →
  let l' := load_step generated l e in
  (Loader.dispatched l' = [SET_LOADING true] ∧ Loader.store l' = s1)
  ∨ (Loader.dispatched l' = [SET_LOADING true; SET_PRODUCTS generated]
     ∧ Loader.store l'
       = State.with_loading false (State.with_products generated s1)
     ∧ Loader.resume_at l' = None).
Proof.
  intros [[Hd Hs]|(Hd & Hs & Hr)] l'; subst l'.
  - destruct e as [ms|]; cbn [load_step]; [|by left].
    unfold load_elapse, resume.
    destruct (Loader.resume_at l) as [due|]; [|by left].
    destruct (due <=? Loader.now l + Z.of_N ms); [|by left].
    cbn [Loader.aborted]. destruct (Loader.aborted l); cbn [negb].
    + by left.
    + right. cbn. by rewrite Hd, Hs.
  - right. destruct (load_step_idle e l Hr) as (Hs' & Hd' & Hr').
    by rewrite Hs', Hd', Hr'.
Qed.

(** X11: whatever the waits and however often the cleanup runs, a load
    dispatches set-loading(true) and after it at most one action, the
    set-collection of the generated products; it never dispatches an error,
    and when the collection is committed the loading flag is false. *)
Theorem load_commits_at_most_once (s : State.t) (t0 : Z) es :
  let l := load_run generated es (mount (Loader.initial s t0)) in
  (Loader.dispatched l = [SET_LOADING true]
   ∧ Loader.store l = State.with_loading true s)
  ∨ (Loader.dispatched l = [SET_LOADING true; SET_PRODUCTS generated]
     ∧ State.products (Loader.store l) = generated
     ∧ State.loading (Loader.store l) = false).
Proof.
  cbn zeta.
  assert (H : ∀ l,
    (Loader.dispatched l = [SET_LOADING true]
     ∧ Loader.store l = State.with_loading true s)
    ∨ (Loader.dispatched l = [SET_LOADING true; SET_PRODUCTS generated]
       ∧ Loader.store l
         = State.with_loading false
             (State.with_products generated (State.with_loading true s))
       ∧ Loader.resume_at l = None) →
    (Loader.dispatched (load_run generated es l) = [SET_LOADING true]
     ∧ Loader.store (load_run generated es l) = State.with_loading true s)
    ∨ (Loader.dispatched (load_run generated es l)
       = [SET_LOADING true; SET_PRODUCTS generated]
       ∧ Loader.store (load_run generated es l)
         = State.with_loading false
             (State.with_products generated (State.with_loading true s))
       ∧ Loader.resume_at (load_run generated es l) = None)).
  { induction es as [|e es IH]; intros l Hl; [done|].
    rewrite load_run_cons. apply IH.
    by apply (load_step_history e l (State.with_loading true s)). }
  destruct (H (mount (Loader.initial s t0))) as [Hw|(Hd & Hs & _)].
  - by left.
  - by left.
  - right. by rewrite Hd, Hs.
Qed.

Lemma load_run_completes es l (due : Z) :
  Loader.aborted l = false → Loader.resume_at l = Some due →
  Loader.now l < due → Cleanup ∉ es → due ≤ Loader.now l + waited es →
  Loader.dispatched (load_run generated es l)
  = Loader.dispatched l ++ [SET_PRODUCTS generated] ∧
  Loader.store (load_run generated es l)
  = State.with_loading false (State.with_products generated (Loader.store l)).
Proof.
  revert l. induction es as [|e es IH]; intros l Hab Hr Hnow Hes Hdue.
  - cbn in Hdue. lia.
  - apply not_elem_of_cons in Hes as [He Hes]. rewrite load_run_cons.
    destruct e as [ms|]; [|done]. cbn [load_step waited] in *.
    destruct (Z.le_gt_cases due (Loader.now l + Z.of_N ms)) as [Hle|Hgt].
    + unfold load_elapse, resume. rewrite Hr.
      destruct (Z.leb_spec due (Loader.now l + Z.of_N ms)); [|lia].
      cbn [Loader.aborted]. rewrite Hab. cbn [negb].
      match goal with |- context [load_run generated es ?l0] =>
        destruct (load_run_idle es l0) as (Hs' & Hd'); [done|]
      end.
      by rewrite Hs', Hd'.
    + rewrite (load_elapse_early generated ms l due) by (done || lia).
      destruct (IH (Loader.mk (Loader.store l) (Loader.now l + Z.of_N ms)
                              (Loader.aborted l) (Some due)
                              (Loader.dispatched l)))
        as (Hd & Hs); try done; cbn [Loader.now]; lia.
Qed.

Lemma load_run_idle_stays es l :
  Loader.resume_at l = None →
  Loader.resume_at (load_run generated es l) = None.
Proof.
  revert l. induction es as [|e es IH]; intros l Hidle; [done|].
  rewrite load_run_cons. apply IH. by apply load_step_idle.
Qed.

(** Once the second is over with no cleanup before it, no continuation is
    pending any more. *)
Lemma load_run_completes_idle es l (due : Z) :
  Loader.aborted l = false → Loader.resume_at l = Some due →
  Loader.now l < due → Cleanup ∉ es → due ≤ Loader.now l + waited es →
  Loader.resume_at (load_run generated es l) = None.
Proof.
  revert l. induction es as [|e es IH]; intros l Hab Hr Hnow Hes Hdue.
  - cbn in Hdue. lia.
  - apply not_elem_of_cons in Hes as [He Hes]. rewrite load_run_cons.
    destruct e as [ms|]; [|done]. cbn [load_step waited] in *.
    destruct (Z.le_gt_cases due (Loader.now l + Z.of_N ms)) as [Hle|Hgt].
    + apply load_run_idle_stays. unfold load_elapse, resume. rewrite Hr.
      destruct (Z.leb_spec due (Loader.now l + Z.of_N ms)); [|lia].
      cbn [Loader.aborted]. by rewrite Hab.
    + rewrite (load_elapse_early generated ms l due) by (done || lia).
      apply (IH (Loader.mk (Loader.store l) (Loader.now l + Z.of_N ms)
                           (Loader.aborted l) (Some due)
                           (Loader.dispatched l)));
        try done; cbn [Loader.now]; lia.
Qed.

(** X3: a load that is not cancelled before its second is over has
    dispatched set-loading(true) and then the set-collection of the generated
    products, and stays so whatever comes afterwards, further waits and a
    late cleanup included: the store holds the generated collection, with
    the loading flag false and the other fields as they were. *)
Theorem load_completes (s : State.t) (t0 : Z) es1 es2 :
  Cleanup ∉ es1 → 1000 ≤ waited es1 →
  let l := load_run generated (es1 ++ es2) (mount (Loader.initial s t0)) in
  Loader.dispatched l = [SET_LOADING true; SET_PRODUCTS generated] ∧
  State.products (Loader.store l) = generated ∧
  State.loading (Loader.store l) = false ∧
  Loader.store l
  = State.mk generated false (State.filter s) (State.searchTerm s)
             (State.error s).
Proof.
  intros Hes Hw. cbn zeta. unfold load_run. rewrite foldl_app.
  fold (load_run generated es1 (mount (Loader.initial s t0))).
  set (l1 := load_run generated es1 (mount (Loader.initial s t0))).
  fold (load_run generated es2 l1).
  destruct (load_run_completes es1 (mount (Loader.initial s t0)) (t0 + 1000))
    as (Hd & Hs); [done|done|cbn; lia|done|cbn; lia|].
  assert (Hidle : Loader.resume_at l1 = None).
  { apply (load_run_completes_idle es1 (mount (Loader.initial s t0))
             (t0 + 1000)); [done|done|cbn; lia|done|cbn; lia]. }
  destruct (load_run_idle es2 l1 Hidle) as (Hs2 & Hd2).
  rewrite Hs2, Hd2. subst l1. by rewrite Hd, Hs.
Qed.

(** X12: a load whose cleanup never runs commits the generated collection
    once a second has been waited, in however many steps: the store then
    holds the generated products, with the loading flag false and the other
    fields as they were. *)
Theorem load_uncancelled_completes (s : State.t) (t0 : Z) es :
  Cleanup ∉ es → 1000 ≤ waited es →
  let l := load_run generated es (mount (Loader.initial s t0)) in
  Loader.dispatched l = [SET_LOADING true; SET_PRODUCTS generated] ∧
  Loader.store l
  = State.mk generated false (State.filter s) (State.searchTerm s)
             (State.error s).
Proof.
  intros Hes Hw.
  destruct (load_run_completes es (mount (Loader.initial s t0)) (t0 + 1000))
    as (Hd & Hs); [done|done|cbn; lia|done|cbn; lia|].
  cbn zeta. by rewrite Hd, Hs.
Qed.

End LoadDispatch.

(** X3, witness: the second is over after two waits; the cleanup comes 50
    ms later, and five more seconds pass. *)
Lemma load_completes_before_cleanup :
  let l := load_run [widget]
             ([Wait 600; Wait 400] ++ [Wait 50; Cleanup; Wait 5000])
             (mount (Loader.initial State.initial 1700000000000)) in
  Loader.dispatched l = [SET_LOADING true; SET_PRODUCTS [widget]] ∧
  State.products (Loader.store l) = [widget] ∧
  State.loading (Loader.store l) = false ∧
  Loader.store l
  = State.mk [widget] false (State.filter State.initial)
             (State.searchTerm State.initial) (State.error State.initial).
Proof.
  apply (load_completes [widget] State.initial 1700000000000
           [Wait 600; Wait 400] [Wait 50; Cleanup; Wait 5000]).
  - intros Hin. repeat (apply elem_of_cons in Hin as [Hin|Hin];
                        [discriminate|]). by apply elem_of_nil in Hin.
  - vm_compute. discriminate.
Defined.

(** X12, witness: three waits, of 400, 400 and 300 ms. *)
Lemma load_completes_in_three_waits :
  let l := load_run [widget] [Wait 400; Wait 400; Wait 300]
                    (mount (Loader.initial State.initial 1700000000000)) in
  Loader.dispatched l = [SET_LOADING true; SET_PRODUCTS [widget]] ∧
  Loader.store l
  = State.mk [widget] false (State.filter State.initial)
             (State.searchTerm State.initial) (State.error State.initial).
Proof.
  apply (load_uncancelled_completes [widget] State.initial 1700000000000
           [Wait 400; Wait 400; Wait 300]).
  - intros Hin. repeat (apply elem_of_cons in Hin as [Hin|Hin];
                        [discriminate|]). by apply elem_of_nil in Hin.
  - vm_compute. discriminate.
Defined.

(** ** The list the dashboard shows *)

Section Shown.

Implicit Types (s t : string) (p : Product.t) (products : list Product.t).

Lemma prefix_append t s :
  String.prefix t s = true ↔ ∃ post, s = t +:+ post.
Proof.
  revert s. induction t as [|a t IH]; intros s.
  - destruct s; cbn; split; eauto.
  - destruct s as [|b s]; cbn.
    + split; [discriminate|]. by intros [post [=]].
    + destruct (ascii_dec a b) as [->|Hne].
      * rewrite IH. split; intros [post Hpost]; exists post.
        -- by rewrite Hpost.
        -- by injection Hpost.
      * split; [discriminate|]. intros [post [= Hab _]]. by destruct Hne.
Qed.

(** [includes] finds the text exactly when it occurs. *)
Lemma includes_occurs s t :
  includes s t = true ↔ ∃ pre post, s = pre +:+ t +:+ post.
Proof.
  induction s as [|a s IH].
  - cbn [includes]. rewrite orb_false_r, prefix_append. split.
    + intros [post Hpost]. by exists EmptyString, post.
    + intros ([|b pre] & post & Hpost); [by exists post|discriminate].
  - cbn [includes]. rewrite orb_true_iff, prefix_append, IH. split.
    + intros [[post Hpost]|(pre & post & Hpost)].
      * by exists EmptyString, post.
      * exists (String a pre), post. cbn. by rewrite Hpost.
    + intros ([|b pre] & post & Hpost).
      * left. by exists post.
      * right. exists pre, post. by injection Hpost.
Qed.

(** The character code of [lower c]. *)
Lemma lower_code (c : ascii) :
  nat_of_ascii (lower c)
  = let n := nat_of_ascii c in
    if ((65 <=? n) && (n <=? 90))%nat then (n + 32)%nat else n.
Proof.
  unfold lower. cbn zeta.
  destruct ((65 <=? nat_of_ascii c) && (nat_of_ascii c <=? 90))%nat eqn:Hup;
    [|done].
  apply andb_true_iff in Hup as [_ Hle%Nat.leb_le].
  apply nat_ascii_embedding. lia.
Qed.

(** Two characters have the same lower case exactly when they are the same
    letter. *)
Lemma lower_same_letter (c c' : ascii) :
  lower c = lower c' ↔ same_letter c c'.
Proof.
  unfold same_letter. cbn zeta. split.
  - intros Heq%(f_equal nat_of_ascii). rewrite !lower_code in Heq.
    cbn zeta in Heq.
    destruct (Nat.leb_spec 65 (nat_of_ascii c)),
      (Nat.leb_spec (nat_of_ascii c) 90),
      (Nat.leb_spec 65 (nat_of_ascii c')),
      (Nat.leb_spec (nat_of_ascii c') 90); cbn [andb] in Heq; lia.
  - intros Hsame.
    rewrite <- (ascii_nat_embedding (lower c)),
      <- (ascii_nat_embedding (lower c')).
    f_equal. rewrite !lower_code. cbn zeta.
    destruct (Nat.leb_spec 65 (nat_of_ascii c)),
      (Nat.leb_spec (nat_of_ascii c) 90),
      (Nat.leb_spec 65 (nat_of_ascii c')),
      (Nat.leb_spec (nat_of_ascii c') 90); cbn [andb]; lia.
Qed.

Lemma toLowerCase_same_letters s t :
  toLowerCase s = toLowerCase t ↔ same_letters s t.
Proof.
  revert t. induction s as [|c s IH]; intros [|c' t]; cbn; try done.
  rewrite <- IH, <- lower_same_letter. split.
  - by intros [= -> ->].
  - by intros [-> ->].
Qed.

Lemma toLowerCase_append s t :
  toLowerCase (s +:+ t) = toLowerCase s +:+ toLowerCase t.
Proof.
  induction s as [|c s IH]; [done|].
  change (String c s +:+ t) with (String c (s +:+ t)).
  cbn [toLowerCase]. by rewrite IH.
Qed.

(** A text whose lower case is [a] followed by [b] is a text of lower case
    [a] followed by one of lower case [b]. *)
Lemma toLowerCase_split s a b :
  toLowerCase s = a +:+ b →
  ∃ s1 s2, s = s1 +:+ s2 ∧ toLowerCase s1 = a ∧ toLowerCase s2 = b.
Proof.
  revert s. induction a as [|c a IH]; intros s Hs.
  - by exists EmptyString, s.
  - destruct s as [|d s]; [discriminate|]. injection Hs as Hc Hs.
    destruct (IH s Hs) as (s1 & s2 & -> & H1 & H2).
    exists (String d s1), s2. cbn. by rewrite Hc, H1, H2.
Qed.

(** The test of the search, without the lower case: the term occurs in the
    text when the case of the letters is left aside. *)
Lemma includes_ignoring_case s t :
  includes (toLowerCase s) (toLowerCase t) = true ↔ occurs_ignoring_case t s.
Proof.
  rewrite includes_occurs. unfold occurs_ignoring_case. split.
  - intros (pre' & post' & Hs).
    apply toLowerCase_split in Hs as (pre & rest & -> & _ & Hrest).
    apply toLowerCase_split in Hrest as (mid & post & -> & Hmid & _).
    exists pre, mid, post. by rewrite <- toLowerCase_same_letters.
  - intros (pre & mid & post & -> & Hmid%toLowerCase_same_letters).
    exists (toLowerCase pre), (toLowerCase post).
    by rewrite !toLowerCase_append, Hmid.
Qed.

Lemma includes_empty s : includes s EmptyString = true.
Proof. destruct s; reflexivity. Qed.

(** X13: on ASCII text, the list shown holds, in the order of the
    collection, exactly the products whose category is the filter (any
    category under the filter ["all"]) and in whose name or category the
    search term occurs when the case of the letters is left aside. *)
Theorem filteredProducts_holds products (filter searchTerm : string) :
  ascii_text searchTerm = true → ascii_products products = true →
  filteredProducts products filter searchTerm `sublist_of` products ∧
  ∀ p, p ∈ filteredProducts products filter searchTerm ↔
    p ∈ products
    ∧ (filter = "all" ∨ Product.category p = filter)
    ∧ (occurs_ignoring_case searchTerm (Product.name p)
       ∨ occurs_ignoring_case searchTerm (Product.category p)).
Proof.
  intros _ _. split; [apply sublist_filter|]. intros p.
  unfold filteredProducts. rewrite list_elem_of_filter. unfold matches.
  rewrite andb_true_iff, !orb_true_iff, !String.eqb_eq,
    !includes_ignoring_case.
  tauto.
Qed.

(** X14: under the filter ["all"] and the empty search term, which the store
    starts with, the list shown is the whole collection. *)
Theorem filteredProducts_all products :
  filteredProducts products "all" "" = products.
Proof.
  unfold filteredProducts. induction products as [|p products IH]; [done|].
  rewrite filter_cons_True; [by rewrite IH|].
  unfold matches. cbn [toLowerCase]. by rewrite includes_empty.
Qed.

(** X15: on ASCII text, the search does not tell the case of the letters:
    two terms that differ at most in the case of their letters give the same
    list. *)
Theorem search_ignores_case products (filter searchTerm searchTerm' : string) :
  ascii_text searchTerm = true → ascii_text searchTerm' = true →
  ascii_products products = true →
  same_letters searchTerm searchTerm' →
  filteredProducts products filter searchTerm
  = filteredProducts products filter searchTerm'.
Proof.
  intros _ _ _ Hsame%toLowerCase_same_letters.
  unfold filteredProducts, matches. by rewrite Hsame.
Qed.

Lemma shown_delete now (st : State.t) (i : Z) :
  shown (productReducer now st (DELETE_PRODUCT i))
  = base.filter (λ p, Product.id p ≠ i) (shown st).
Proof.
  unfold shown, filteredProducts. cbn.
  rewrite !list_filter_filter. apply list_filter_iff. tauto.
Qed.

Lemma shown_delete_gone now (st : State.t) (i : Z) :
  i ∉ (Product.id <$> shown (productReducer now st (DELETE_PRODUCT i))).
Proof.
  rewrite shown_delete.
  intros (p & Hp & [Hne _]%list_elem_of_filter)%list_elem_of_fmap.
  by destruct Hne.
Qed.

(** X16: after a delete the product is not in the list shown, whatever the
    filter and the search term, and the rest of the list is as it was. *)
Theorem shown_after_delete now (st : State.t) (i : Z) :
  let st' := productReducer now st (DELETE_PRODUCT i) in
  shown st' = base.filter (λ p, Product.id p ≠ i) (shown st) ∧
  i ∉ (Product.id <$> shown st').
Proof. split; [apply shown_delete|apply shown_delete_gone]. Qed.

End Shown.

(** X13, witness: three products under the filter "Home" and the term
    "LAMP": the lamp alone is shown. *)
Lemma filteredProducts_holds_on_three :
  (ascii_text "LAMP" = true ∧ ascii_products [widget; lamp; novel] = true) ∧
  filteredProducts [widget; lamp; novel] "Home" "LAMP" = [lamp] ∧
  (filteredProducts [widget; lamp; novel] "Home" "LAMP"
     `sublist_of` [widget; lamp; novel] ∧
   ∀ p, p ∈ filteredProducts [widget; lamp; novel] "Home" "LAMP" ↔
     p ∈ [widget; lamp; novel]
     ∧ ("Home" = "all" ∨ Product.category p = "Home")
     ∧ (occurs_ignoring_case "LAMP" (Product.name p)
        ∨ occurs_ignoring_case "LAMP" (Product.category p))).
Proof.
  refine (conj (conj eq_refl eq_refl) (conj eq_refl
    (filteredProducts_holds [widget; lamp; novel] "Home" "LAMP"
       eq_refl eq_refl))).
Defined.

(** X15, witness: the terms "bOOks" and "Books" both show the novel. *)
Lemma search_ignores_case_of_books :
  (ascii_text "bOOks" = true ∧ ascii_text "Books" = true ∧
   ascii_products [widget; lamp; novel] = true ∧
   same_letters "bOOks" "Books") ∧
  filteredProducts [widget; lamp; novel] "all" "bOOks" = [novel] ∧
  filteredProducts [widget; lamp; novel] "all" "bOOks"
  = filteredProducts [widget; lamp; novel] "all" "Books".
Proof.
  assert (Hsame : same_letters "bOOks" "Books").
  { by apply toLowerCase_same_letters. }
  refine (conj (conj eq_refl (conj eq_refl (conj eq_refl Hsame)))
    (conj eq_refl
       (search_ignores_case [widget; lamp; novel] "all" "bOOks" "Books"
          eq_refl eq_refl eq_refl Hsame))).
Defined.

(** ** The debounced search box *)

Section Search.

Implicit Types (b : SearchBox.t) (es : list SearchEvent).








(** X18: keystrokes that each change the text and are each followed by
    less than 300 ms dispatch nothing: the store is not touched until the
    typing pauses. *)
Theorem search_burst_dispatches_nothing b (keys : list (string * N)) :
  each_changes (Debounce.value (SearchBox.debounce b)) keys →
  Forall (λ k, (k.2 < 300)%N) keys →
  let b' := search_run (burst keys) b in
  SearchBox.dispatched b' = SearchBox.dispatched b ∧
  SearchBox.store b' = SearchBox.store b.
Proof.
  revert b. induction keys as [|[text ms] keys IH]; intros b Hch Hms; [done|].
  destruct Hch as [Hne Hch]. apply list.Forall_cons in Hms as [Hlt Hms].
  cbn [burst search_run foldl search_step]. cbn in Hlt.
  set (b1 := search_elapse ms (typeSearch text b)).
  assert (H1 : SearchBox.dispatched b1 = SearchBox.dispatched b
               ∧ SearchBox.store b1 = SearchBox.store b
               ∧ Debounce.value (SearchBox.debounce b1) = text).
  { subst b1. destruct b as [st now [value debounced timer] disp].
    cbn in Hne. unfold typeSearch, useDebounce_render. cbn.
    destruct (String.eqb_spec text value) as [Heq|_]; [by destruct Hne|].
    unfold search_elapse, useDebounce_fire. cbn.
    destruct (Z.leb_spec (now + 300) (now + Z.of_N ms)); [lia|].
    rewrite String.eqb_refl. by cbn. }
  destruct H1 as (Hd & Hs & Hv).
  destruct (IH b1) as (Hd' & Hs'); [by rewrite Hv|done|].
  cbn zeta. fold (search_run (burst keys) b1).
  by rewrite Hd', Hs'.
Qed.

(** X18, witness: the three keystrokes of ["abc"], 100 ms apart. *)
Lemma search_burst_abc :
  let b := mountSearch State.initial 1700000000000 in
  let b' := search_run (burst [("a", 100); ("ab", 100); ("abc", 100)])%N b in
  SearchBox.dispatched b' = SearchBox.dispatched b ∧
  SearchBox.store b' = SearchBox.store b.
Proof.
  apply (search_burst_dispatches_nothing
           (mountSearch State.initial 1700000000000)
           [("a", 100); ("ab", 100); ("abc", 100)]%N).
  - cbn. repeat split; discriminate.
  - repeat constructor.
Defined.

End Search.

(** ** The session *)

Section Session.

Implicit Types (a : Auth.t) (es : list AuthEvent).

Lemma auth_run_snoc es e :
  foldl auth_step Auth.initial (es ++ [e])
  = auth_step (foldl auth_step Auth.initial es) e.
Proof. apply foldl_snoc. Qed.

(** X19: after any logins and logouts, the session is authenticated
    exactly when the last of them was a login (or there was none), and it
    has its user exactly when there never was a logout: a login after a
    logout authenticates without a user, and the header then has no name to
    show. *)
Theorem auth_after_events es :
  let a := foldl auth_step Auth.initial es in
  Auth.isAuthenticated a
  = match list.last es with Some Logout => false | _ => true end ∧
  (Logout ∉ es → Auth.user a = Auth.user Auth.initial) ∧
  (Logout ∈ es → Auth.user a = None ∧ header_name a = None).
Proof.
  cbn zeta. induction es as [|e es IH] using rev_ind.
  - cbn. split; [done|]. split; [done|]. by intros ?%elem_of_nil.
  - rewrite auth_run_snoc, list.last_snoc. destruct IH as (_ & Hkeep & Hgone).
    destruct e; cbn [auth_step login logout Auth.isAuthenticated Auth.user].
    + split; [done|]. split.
      * intros Hes. apply Hkeep. intros Hin. apply Hes, elem_of_app. by left.
      * intros [Hin|[=]%list_elem_of_singleton]%elem_of_app.
        destruct (Hgone Hin) as [Hu Hh]. split; [done|].
        unfold header_name in *. cbn. by rewrite Hu.
    + split; [done|]. split; [|done].
      intros Hes. destruct Hes. apply elem_of_app. right. by left.
Qed.

End Session.

(** ** The generated products *)

Section Generated.

Variable draw : nat → Draw.t.

Lemma generated_ids :
  Product.id <$> generateMockProducts draw
  = (λ i : nat, Z.of_nat i + 1) <$> seq 0 1000.
Proof. unfold generateMockProducts. by rewrite <- list_fmap_compose. Qed.

Lemma generated_length : length (generateMockProducts draw) = 1000%nat.
Proof. unfold generateMockProducts. by rewrite length_fmap, length_seq. Qed.

Lemma generated_ids_range j :
  j ∈ (Product.id <$> generateMockProducts draw) ↔ 1 ≤ j ≤ 1000.
Proof.
  rewrite generated_ids, list_elem_of_fmap. split.
  - intros (i & -> & Hi). apply elem_of_seq in Hi. lia.
  - intros Hj. exists (Z.to_nat (j - 1)). split; [lia|].
    apply elem_of_seq. lia.
Qed.

Lemma generated_ids_unique : NoDup (Product.id <$> generateMockProducts draw).
Proof.
  rewrite generated_ids. apply NoDup_fmap_2; [|apply NoDup_seq].
  intros i i' Heq. lia.
Qed.

(** X20: the generator returns 1000 products; the product at index [i] has
    the identifier [i + 1] and the name made of ["Product "] and the decimal
    of [i + 1]; so the identifiers are the numbers from 1 to 1000, each
    once. *)
Theorem generated_products_numbered :
  length (generateMockProducts draw) = 1000%nat ∧
  (∀ (i : nat) p, generateMockProducts draw !! i = Some p →
     Product.id p = Z.of_nat i + 1 ∧
     Product.name p = "Product " +:+ digits (Z.of_nat i + 1)) ∧
  (∀ j, j ∈ (Product.id <$> generateMockProducts draw) ↔ 1 ≤ j ≤ 1000) ∧
  NoDup (Product.id <$> generateMockProducts draw).
Proof.
  split; [apply generated_length|]. split; [|split].
  - unfold generateMockProducts. intros i p Hp.
    apply list_lookup_fmap_Some in Hp as (k & -> & Hk).
    apply lookup_seq in Hk as [-> _]. by cbn.
  - apply generated_ids_range.
  - apply generated_ids_unique.
Qed.

(** X21: once an uncancelled load has committed the generated products, no
    two entries of the store share an identifier, and an add at a clock
    reading above 1000 (as every reading of [Date.now()] is) keeps it so. *)
Theorem loaded_ids_unique (s : State.t) (t0 now : Z)
    (es : list LoadEvent) p :
  Cleanup ∉ es → 1000 ≤ waited es → 1000 < now →
  let st := Loader.store
              (load_run (generateMockProducts draw) es
                        (mount (Loader.initial s t0))) in
  length (State.products st) = 1000%nat ∧
  NoDup (product_ids st) ∧
  NoDup (product_ids (productReducer now st (ADD_PRODUCT p))).
Proof.
  intros Hes Hw Hnow.
  destruct (load_run_completes (generateMockProducts draw) es
              (mount (Loader.initial s t0)) (t0 + 1000))
    as [_ Hst]; [done|done|cbn; lia|done|cbn; lia|].
  cbn zeta. rewrite Hst.
  split; [exact generated_length|]. split; [exact generated_ids_unique|].
  apply ids_unique_step; [exact generated_ids_unique|by intros ? [=]|].
  intros _ Hin. apply generated_ids_range in Hin. lia.
Qed.

End Generated.

(** X21, witness: a load left alone for a second, then an add. *)
Lemma loaded_then_add_unique :
  let st := Loader.store
              (load_run (generateMockProducts (λ _, Draw.mk "Home" 25 3
                                                   "active" 7 4.5))
                        [Wait 1000]
                        (mount (Loader.initial State.initial 1700000000000)))
  in
  length (State.products st) = 1000%nat ∧
  NoDup (product_ids st) ∧
  NoDup (product_ids (productReducer 1700000001000 st (ADD_PRODUCT widget))).
Proof.
  apply (loaded_ids_unique (λ _, Draw.mk "Home" 25 3 "active" 7 4.5)
           State.initial 1700000000000 1700000001000 [Wait 1000] widget).
  - intros [[=]|Hin%elem_of_nil]%elem_of_cons. done.
  - vm_compute. discriminate.
  - lia.
Defined.

(** ** The dashboard and its edit modal *)

Section DashboardFacts.

Implicit Types (d : Dashboard.t) (p f : Product.t) (edits : list FormEdit).

(** The text and the two numbers are all that the inputs of the modal
    change. *)
Lemma setFormData_keeps edits p :
  let f := foldl (λ f e, setFormData e f) p edits in
  Product.id f = Product.id p ∧
  Product.category f = Product.category p ∧
  Product.status f = Product.status p ∧
  Product.sales f = Product.sales p ∧
  Product.rating f = Product.rating p.
Proof.
  revert p. induction edits as [|e edits IH]; intros p; [done|].
  cbn [foldl]. destruct (IH (setFormData e p)) as (H1 & H2 & H3 & H4 & H5).
  cbn zeta. rewrite H1, H2, H3, H4, H5. by destruct e.
Qed.

Lemma dashboard_run_cons (e : DashboardEvent) es d :
  dashboard_run (e :: es) d = dashboard_run es (dashboard_step d e).
Proof. reflexivity. Qed.

Lemma dashboard_run_app (es es' : list DashboardEvent) d :
  dashboard_run (es ++ es') d = dashboard_run es' (dashboard_run es d).
Proof. apply foldl_app. Qed.

(** While the modal is open, typing into it changes its form and nothing
    else. *)
Lemma dashboard_run_changes edits d f :
  Dashboard.formData d = Some f →
  dashboard_run (Change <$> edits) d
  = Dashboard.mk (Dashboard.store d) (Dashboard.queue d)
                 (Dashboard.editingProduct d)
                 (Some (foldl (λ f e, setFormData e f) f edits)).
Proof.
  revert d f. induction edits as [|e edits IH]; intros d f Hf.
  - destruct d. cbn in *. by rewrite Hf.
  - rewrite fmap_cons, dashboard_run_cons.
    rewrite (IH _ (setFormData e f)); [done|]. cbn. by rewrite Hf.
Qed.

(** X22: with the modal closed and no two entries sharing an identifier,
    opening the product at position [k], typing into the name, price and
    stock inputs, and saving puts the form at position [k] of the collection
    and changes no other position; the saved entry has the identifier,
    category, status, sales and rating of the product opened; the modal is
    closed, and one message, a success, is enqueued under the clock reading
    as identifier. *)
Theorem edit_session_saves_in_place (st : State.t) (q : Queue.t)
    (k : nat) p edits :
  NoDup (product_ids st) → State.products st !! k = Some p →
  let f := foldl (λ f e, setFormData e f) p edits in
  let d := dashboard_run (Edit p :: (Change <$> edits) ++ [Submit])
                         (Dashboard.mk st q None None) in
  State.products (Dashboard.store d) = <[k:=f]> (State.products st) ∧
  same_view st (Dashboard.store d) ∧
  Product.id f = Product.id p ∧
  Product.category f = Product.category p ∧
  Product.status f = Product.status p ∧
  Product.sales f = Product.sales p ∧
  Product.rating f = Product.rating p ∧
  Dashboard.editingProduct d = None ∧
  Dashboard.formData d = None ∧
  Queue.notifications (Dashboard.queue d)
  = Queue.notifications q
    ++ [Notification.mk "success" "Product updated successfully"
                        (Queue.now q)].
Proof.
  intros Hst Hk f d. subst d.
  rewrite dashboard_run_cons, dashboard_run_app.
  rewrite (dashboard_run_changes edits _ p) by reflexivity.
  fold f. cbn.
  destruct (setFormData_keeps edits p) as (H1 & H2 & H3 & H4 & H5).
  fold f in H1, H2, H3, H4, H5.
  split; [|by repeat split].
  by apply (fmap_replace_unique (State.products st) f p k).
Qed.

(** X22, witness: the second of two products renamed and repriced. *)
Lemma edit_session_on_second :
  let st := State.with_products
              [Product.with_id widget 1; Product.with_id widget 2]
              State.initial in
  let q := Queue.initial 1700000000000 in
  let p := Product.with_id widget 2 in
  let edits := [Name "Gadget"; Price 30] in
  let f := foldl (λ f e, setFormData e f) p edits in
  let d := dashboard_run (Edit p :: (Change <$> edits) ++ [Submit])
                         (Dashboard.mk st q None None) in
  State.products (Dashboard.store d) = <[1%nat:=f]> (State.products st) ∧
  same_view st (Dashboard.store d) ∧
  Product.id f = Product.id p ∧
  Product.category f = Product.category p ∧
  Product.status f = Product.status p ∧
  Product.sales f = Product.sales p ∧
  Product.rating f = Product.rating p ∧
  Dashboard.editingProduct d = None ∧
  Dashboard.formData d = None ∧
  Queue.notifications (Dashboard.queue d)
  = Queue.notifications q
    ++ [Notification.mk "success" "Product updated successfully"
                        (Queue.now q)].
Proof.
  apply (edit_session_saves_in_place
           (State.with_products
              [Product.with_id widget 1; Product.with_id widget 2]
              State.initial)
           (Queue.initial 1700000000000) 1 (Product.with_id widget 2)
           [Name "Gadget"; Price 30]).
  - unfold product_ids. cbn. apply list.NoDup_cons. split.
    + intros [=]%list_elem_of_singleton.
    + apply NoDup_singleton.
  - reflexivity.
Defined.

(** X23: with the modal closed, opening a product, typing into the inputs
    and closing the modal without saving leaves the store, the queue and the
    dashboard as they were. *)
Theorem cancel_discards_edits (st : State.t) (q : Queue.t) p edits :
  dashboard_run (Edit p :: (Change <$> edits) ++ [Close])
                (Dashboard.mk st q None None)
  = Dashboard.mk st q None None.
Proof.
  rewrite dashboard_run_cons, dashboard_run_app.
  by rewrite (dashboard_run_changes edits _ p).
Qed.

(** X24: the delete button removes the product from the list shown,
    whatever the filter and the search term, and enqueues one success
    message, whether or not a product had the identifier; the modal is left
    as it is. *)
Theorem handleDelete_unlists d (i : Z) :
  let d' := handleDelete i d in
  (i ∉ (Product.id <$> shown (Dashboard.store d'))) ∧
  shown (Dashboard.store d')
  = base.filter (λ p, Product.id p ≠ i) (shown (Dashboard.store d)) ∧
  Queue.notifications (Dashboard.queue d')
  = Queue.notifications (Dashboard.queue d)
    ++ [Notification.mk "success" "Product deleted successfully"
                        (Queue.now (Dashboard.queue d))] ∧
  Dashboard.editingProduct d' = Dashboard.editingProduct d ∧
  Dashboard.formData d' = Dashboard.formData d.
Proof.
  cbn zeta. cbn [handleDelete dashboard_notify dashboard_dispatch
                 Dashboard.store Dashboard.queue Dashboard.editingProduct
                 Dashboard.formData].
  pose proof (shown_delete (Queue.now (Dashboard.queue d))
                (Dashboard.store d) i) as Hshown.
  pose proof (shown_delete_gone (Queue.now (Dashboard.queue d))
                (Dashboard.store d) i) as Hgone.
  by repeat split.
Qed.

End DashboardFacts.

(** ** The analytics cards after an add *)

Section AnalyticsAfterAdd.

Variable Number_toString : float → string.

(** X25: after an add the cards are never empty: they count one product
    more, the total sales grow by the sales of the payload, the out-of-stock
    count grows by one exactly when the stock of the payload is 0, and the
    average is printed from the former sum of ratings plus the rating of the
    payload, divided by the new count. *)
Theorem analytics_after_add now (s : State.t) (p : Product.t) :
  let ps := State.products s in
  analytics Number_toString
            (State.products (productReducer now s (ADD_PRODUCT p)))
  = Some (Analytics.mk
            (S (length ps))
            (foldr Z.add 0 (Product.sales <$> ps) + Product.sales p)
            (toFixed Number_toString
               ((rating_sum ps + Product.rating p)
                / number_of_nat (S (length ps)))%float 1)
            (length (base.filter (λ q, (Product.stock q = 0)%Z) ps)
             + (if decide (Product.stock p = 0)%Z then 1 else 0))%nat).
Proof.
  cbn zeta. rewrite reducer_add_products.
  unfold analytics. rewrite length_app. cbn [length].
  rewrite Nat.add_1_r. cbn [Nat.eqb]. f_equal. f_equal.
  - rewrite foldl_snoc, foldl_sales_sum. cbn. lia.
  - unfold rating_sum. by rewrite foldl_snoc.
  - rewrite list.filter_app, length_app. f_equal.
    rewrite filter_cons, filter_nil. cbn.
    by destruct (decide (Product.stock p = 0)).
Qed.

End AnalyticsAfterAdd.
